(** * Reclaim-space planning: staged actions and space accounting

    A shallow embedding of [src/components/storage/ReclaimSpaceModal.jsx]
    (anaconda-webui).  The dialog keeps, for every device of the
    original device tree, an ordered list of not yet applied actions
    ([unappliedActions]); the footer turns these lists into a number of
    reclaimed bytes and compares it with the size the installation
    requires.

    Conventions of the embedding:
    - a JavaScript object used as a map is an association list in
      [Object.keys] order, which for device names (no array indices) is
      the order of insertion; a lookup takes the first entry of a key;
    - a [TypeError] (a property read on [undefined]) is [None]; a name
      that is no key of an object but a member of [Object.prototype]
      ends in the same [TypeError] wherever the source reads a property
      of what it has looked up, and is told apart ([member]) where the
      source tests the result first;
    - byte counts are integers ([Z]); the empty string, which
      [onAction] stores as the [value] of a [remove], is kept as its
      own JavaScript value and converted by [toNumber] where the source
      subtracts it;
    - the numbers that the shrink slider produces are rationals ([Q]),
      exact where the doubles of the source are rounded. *)

From Stdlib Require Import List String ZArith QArith Qround Qminmax Lia Lqa Bool.
Import ListNotations.

Local Open Scope string_scope.
Local Open Scope Z_scope.
Local Open Scope list_scope.

Set Implicit Arguments.

(** ** JavaScript values and objects *)

Inductive JsValue : Type :=
| JsNum (z : Z)
| JsEmptyString.

(** [ToNumber]: the empty string converts to [0]. *)
Definition toNumber (v : JsValue) : Z :=
  match v with
  | JsNum z => z
  | JsEmptyString => 0
  end.

(** [ToBoolean] of a property that may be [undefined]. *)
Definition truthy (v : option JsValue) : bool :=
  match v with
  | Some (JsNum z) => negb (z =? 0)
  | Some JsEmptyString => false
  | None => false
  end.

Definition JsObject (A : Type) : Type := list (string * A).

Section JsObjects.
Context {A : Type}.

(** [obj[key]]; [None] stands for [undefined]. *)
Fixpoint lookup (key : string) (obj : JsObject A) : option A :=
  match obj with
  | [] => None
  | (k, v) :: rest => if String.eqb key k then Some v else lookup key rest
  end.

(** [Object.keys(obj)]. *)
Definition keys (obj : JsObject A) : list string := map fst obj.

(** The object after [obj[key]] was changed to [f obj[key]]. *)
Fixpoint update (key : string) (f : A -> A) (obj : JsObject A) : JsObject A :=
  match obj with
  | [] => []
  | (k, v) :: rest =>
      if String.eqb key k then (k, f v) :: rest
      else (k, v) :: update key f rest
  end.
End JsObjects.

(** A small error monad for code that may throw. *)
Definition bind {A B : Type} (m : option A) (k : A -> option B) : option B :=
  match m with
  | Some a => k a
  | None => None
  end.

Notation "x <- m ;; k" := (bind m (fun x => k))
  (at level 61, m at next level, right associativity).

(** [xs.some(p)] for a predicate that may throw: stops at the first hit. *)
Fixpoint someM {A : Type} (p : A -> option bool) (xs : list A) : option bool :=
  match xs with
  | [] => Some false
  | x :: rest => b <- p x ;; if b then Some true else someM p rest
  end.

(** [xs.filter(p)] for a predicate that may throw. *)
Fixpoint filterM {A : Type} (p : A -> option bool) (xs : list A) : option (list A) :=
  match xs with
  | [] => Some []
  | x :: rest =>
      b <- p x ;;
      kept <- filterM p rest ;;
      Some (if b then x :: kept else kept)
  end.

(** [xs.reduce(f, init)] for a step that may throw. *)
Fixpoint reduceM {A B : Type} (f : B -> A -> option B) (xs : list A) (init : B) : option B :=
  match xs with
  | [] => Some init
  | x :: rest => acc <- f init x ;; reduceM f rest acc
  end.

(** ** Devices and actions *)

Module Device.
(** The properties of a device record that the dialog reads
    ([device.name.v], [device.type.v], ...). *)
Record t : Type := Build {
  name : string;
  type : string;
  total : Z;
  free : Z;
  parents : list string;
  children : list string
}.
End Device.

Inductive ActionType : Type := remove | shrink.

Definition ActionType_eqb (a b : ActionType) : bool :=
  match a, b with
  | remove, remove | shrink, shrink => true
  | _, _ => false
  end.

Module Action.
(** [{ type: action, value }] as pushed by [onAction]. *)
Record t : Type := Build {
  type : ActionType;
  value : JsValue
}.
End Action.

Definition Devices : Type := JsObject Device.t.
Definition Ledger : Type := JsObject (list Action.t).

(** ** Transitive walks over the device graph *)

Section Closure.
Variable succ : string -> list string.

Definition seenIn (seen : list string) (x : string) : bool :=
  existsb (String.eqb x) seen.

(** The names of [xs] not visited yet, each once. *)
Definition fresh (seen xs : list string) : list string :=
  nodup string_dec (filter (fun x => negb (seenIn seen x)) xs).

(** Breadth-first walk: [frontier] holds the names found in the last
    round, [seen] every name found so far, nearest first.  A round
    that finds no new name ends the walk. *)
Fixpoint walk (fuel : nat) (frontier seen : list string) : list string :=
  match fuel with
  | O => seen
  | S fuel' =>
      match fresh seen (flat_map succ frontier) with
      | [] => seen
      | next => walk fuel' next (seen ++ next)
      end
  end.

(** [reaches x y]: [y] is found from [x] by one or more [succ] steps. *)
Inductive reaches : string -> string -> Prop :=
| reaches_step x y : In y (succ x) -> reaches x y
| reaches_more x y z : In y (succ x) -> reaches y z -> reaches x z.

(** What a walk from the names of [start] is to find. *)
Definition foundFrom (start : list string) (x : string) : Prop :=
exists s, In s start /\ reaches s x.
End Closure.

Definition parentsOf (devices : Devices) (device : string) : list string :=
  match lookup device devices with
  | Some d => Device.parents d
  | None => []
  end.

(** Every name that occurs as somebody's parent. *)
Definition parentNames (devices : Devices) : list string :=
  flat_map (fun entry => Device.parents (snd entry)) devices.

(** Modelled from the spec: [getDeviceAncestors] of [helpers/storage.js],
    a file that is not among the sources.  Spec 4.1: [ancestorsOf(name)]
    gives an ordered sequence of device names, walks [parents]
    transitively, nearest first, and is cycle-safe: it terminates on
    malformed input by stopping at names already visited.  The device
    itself is listed only when a cycle leads back to it. *)
Definition getDeviceAncestors (devices : Devices) (device : string) : list string :=
  walk (parentsOf devices) (S (List.length (parentNames devices))) [device] [].

(** ** The ledger of unapplied actions *)

(** [Object.keys(devices).reduce((acc, device) => { acc[device] = []; return acc }, {})],
    the initial state of [unappliedActions]. *)
Definition initialUnappliedActions (devices : Devices) : Ledger :=
  map (fun device => (device, @nil Action.t)) (keys devices).

(** [array.push(x)] and [array.pop()] on the array held under a key. *)
Definition push (x : Action.t) (actions : list Action.t) : list Action.t :=
  actions ++ [x].

Definition pop (actions : list Action.t) : list Action.t :=
  removelast actions.

(** [onAction] of [DeviceActions]: the updater handed to
    [setUnappliedActions].  Pushing onto [undefined] throws. *)
Definition onAction (device : Device.t) (action : ActionType) (value : JsValue)
  (prevUnappliedActions : Ledger) : option Ledger :=
  _ <- lookup (Device.name device) prevUnappliedActions ;;
  Some (update (Device.name device) (push (Action.Build action value)) prevUnappliedActions).

(** [onUndo] of [DeviceActions]; [pop] on an empty array does nothing. *)
Definition onUndo (device : Device.t) (prevUnappliedActions : Ledger) : option Ledger :=
  _ <- lookup (Device.name device) prevUnappliedActions ;;
  Some (update (Device.name device) pop prevUnappliedActions).

(** [onRemove] calls [onAction("remove")], whose [value] defaults to the
    empty string; [onShrink] passes the popover's value. *)
Definition onRemove (device : Device.t) : Ledger -> option Ledger :=
  onAction device remove JsEmptyString.

Definition onShrink (device : Device.t) (value : Z) : Ledger -> option Ledger :=
  onAction device shrink (JsNum value).

(** ** Space accounting: [getReclaimableSpaceFromAction] *)

Definition includes (wanted : ActionType) (types : list ActionType) : bool :=
  existsb (ActionType_eqb wanted) types.

Section Reclaimable.
Variable devices : Devices.
Variable unappliedActions : Ledger.

Definition isDeviceRemoved (device : string) : option bool :=
  actions <- lookup device unappliedActions ;;
  Some (includes remove (map Action.type actions)).

Definition isDeviceResized (device : string) : option bool :=
  actions <- lookup device unappliedActions ;;
  Some (includes shrink (map Action.type actions)).

Definition isDeviceParentRemoved (device : string) : option bool :=
  someM isDeviceRemoved (getDeviceAncestors devices device).

(** [p(device) && !isDeviceParentRemoved(device)], left to right. *)
Definition andNotParentRemoved (p : string -> option bool) (device : string) : option bool :=
  own <- p device ;;
  if own then above <- isDeviceParentRemoved device ;; Some (negb above)
  else Some false.

(** [acc + devices[device].total.v - devices[device].free.v] *)
Definition addUsedSpace (acc : Z) (device : string) : option Z :=
  d <- lookup device devices ;;
  Some (acc + Device.total d - Device.free d).

(** [acc + devices[device].total.v - action.value]; the subtraction
    converts [action.value] to a number. *)
Definition addShrunkSpace (device : string) (acc : Z) (action : Action.t) : option Z :=
  d <- lookup device devices ;;
  Some (acc + Device.total d - toNumber (Action.value action)).

(** [acc + unappliedActions[device].reduce(..., 0)] *)
Definition addDeviceShrunkSpace (acc : Z) (device : string) : option Z :=
  actions <- lookup device unappliedActions ;;
  inner <- reduceM (addShrunkSpace device) actions 0 ;;
  Some (acc + inner).

Definition getReclaimableSpaceFromAction (action : ActionType) : option Z :=
  match action with
  | remove =>
      selected <- filterM (andNotParentRemoved isDeviceRemoved) (keys unappliedActions) ;;
      reduceM addUsedSpace selected 0
  | shrink =>
      selected <- filterM (andNotParentRemoved isDeviceResized) (keys unappliedActions) ;;
      reduceM addDeviceShrunkSpace selected 0
  end.
End Reclaimable.

(** ** The footer: [ReclaimFooter] *)

Inductive Status : Type := warning | success.

Definition Status_eqb (a b : Status) : bool :=
  match a, b with
  | warning, warning | success, success => true
  | _, _ => false
  end.

Module Footer.
(** What the footer shows: the variant of the helper text, the number
    behind "Available free space" and the [isDisabled] property of the
    "Reclaim space" button. *)
Record t : Type := Build {
  status : Status;
  availableFreeSpace : Z;
  reclaimIsDisabled : bool
}.
End Footer.

(** [diskFreeSpace] and [requiredSize] come from the hooks
    [useDiskFreeSpace] and [useRequiredSize]. *)
Definition ReclaimFooter (isFormDisabled : bool) (devices : Devices)
  (diskFreeSpace requiredSize : Z) (unappliedActions : Ledger) : option Footer.t :=
  selectedSpaceToDelete <- getReclaimableSpaceFromAction devices unappliedActions remove ;;
  selectedSpaceToShrink <- getReclaimableSpaceFromAction devices unappliedActions shrink ;;
  let selectedSpaceToReclaim := selectedSpaceToDelete + selectedSpaceToShrink in
  let status :=
    if diskFreeSpace + selectedSpaceToReclaim <? requiredSize then warning else success in
  Some (Footer.Build status (diskFreeSpace + selectedSpaceToReclaim)
          (Status_eqb status warning || isFormDisabled)).

(** ** The controls of a row: [DeviceActions] *)

Definition isSome {A : Type} (o : option A) : bool :=
  match o with
  | Some _ => true
  | None => false
  end.

(** [unappliedActions[device].find(action => action.type === type)] *)
Definition getDeviceActionOfType (device : string) (type : ActionType)
  (unappliedActions : Ledger) : option (option Action.t) :=
  actions <- lookup device unappliedActions ;;
  Some (find (fun action => ActionType_eqb (Action.type action) type) actions).

Section DeviceActions.
Variable device : Device.t.
Variable unappliedActions : Ledger.

(** [parents?.some(parent => getDeviceActionOfType({ device: parent, type: "remove", ... }))] *)
Definition parentHasRemove : option bool :=
  someM (fun parent =>
           found <- getDeviceActionOfType parent remove unappliedActions ;;
           Some (isSome found))
        (Device.parents device).

(** [parentHasRemove || getDeviceActionOfType(own name, "remove")], as a truth value. *)
Definition hasBeenRemoved : option bool :=
  above <- parentHasRemove ;;
  if above then Some true
  else found <- getDeviceActionOfType (Device.name device) remove unappliedActions ;;
       Some (isSome found).

(** [getDeviceActionOfType(own name, "shrink")?.value]; the inner
    [None] is [undefined]. *)
Definition newDeviceSize : option (option JsValue) :=
  found <- getDeviceActionOfType (Device.name device) shrink unappliedActions ;;
  Some (option_map Action.value found).

(** [!parentHasRemove && unappliedActions[device.name.v].length > 0] *)
Definition hasUnappliedActions : option bool :=
  above <- parentHasRemove ;;
  if above then Some false
  else actions <- lookup (Device.name device) unappliedActions ;;
       Some (0 <? List.length actions)%nat.
End DeviceActions.

Inductive ShrinkView : Type :=
| ShrinkNothing
| ShrinkText (newDeviceSize : JsValue)
| ShrinkButton (isDisabled : bool).

Inductive DeleteView : Type :=
| DeleteNothing
| DeleteText
| DeleteButton (isDisabled : bool).

Definition isDiskType (device : Device.t) : bool :=
  String.eqb (Device.type device) "disk".

(** [DeviceActionShrink]; [isDeviceShrinkable] is the state of the hook
    [useIsDeviceShrinkable]: [None] while the query is pending. *)
Definition DeviceActionShrink (isDeviceShrinkable : option bool) (device : Device.t)
  (hasBeenRemoved : bool) (newDeviceSize : option JsValue) : ShrinkView :=
  if hasBeenRemoved then ShrinkNothing
  else if truthy newDeviceSize then
         match newDeviceSize with
         | Some size => ShrinkText size
         | None => ShrinkNothing
         end
       else if negb (isDiskType device) then
              ShrinkButton (negb (match isDeviceShrinkable with
                                  | Some answer => answer
                                  | None => false
                                  end))
            else ShrinkNothing.

(** [DeviceActionDelete]; for a disk the 'delete' text is the empty string. *)
Definition DeviceActionDelete (device : Device.t)
  (hasBeenRemoved : bool) (newDeviceSize : option JsValue) : DeleteView :=
  let isRemoveDisabled :=
    isDiskType device && (List.length (Device.children device) =? 0)%nat in
  let deleteText := if negb (isDiskType device) then DeleteText else DeleteNothing in
  match newDeviceSize with
  | Some _ => DeleteNothing
  | None => if hasBeenRemoved then deleteText else DeleteButton isRemoveDisabled
  end.

Module Controls.
Record t : Type := Build {
  shrinkView : ShrinkView;
  deleteView : DeleteView;
  undoButton : bool
}.
End Controls.

(** [DeviceActions]: [Some None] is the [null] returned for [level > 1]. *)
Definition DeviceActions (isDeviceShrinkable : option bool) (device : Device.t)
  (level : nat) (unappliedActions : Ledger) : option (option Controls.t) :=
  if (1 <? level)%nat then Some None
  else
    removed <- hasBeenRemoved device unappliedActions ;;
    size <- newDeviceSize device unappliedActions ;;
    undo <- hasUnappliedActions device unappliedActions ;;
    Some (Some (Controls.Build
                  (DeviceActionShrink isDeviceShrinkable device removed size)
                  (DeviceActionDelete device removed size)
                  undo)).

(** ** The rows of the table: [getDeviceRow] *)

Module Row.
(** A row keeps what [DeviceActions] is given: the device and its level. *)
Record t : Type := Build {
  key : string;
  device : Device.t;
  level : nat
}.
End Row.

(** [xs.map(f)] for a function that may throw. *)
Fixpoint mapM {A B : Type} (f : A -> option B) (xs : list A) : option (list B) :=
  match xs with
  | [] => Some []
  | x :: rest => y <- f x ;; ys <- mapM f rest ;; Some (y :: ys)
  end.

(** [array.findIndex(p)]: the first index at which [p] holds, or [-1]. *)
Fixpoint findIndex {A : Type} (p : A -> bool) (xs : list A) : Z :=
  match xs with
  | [] => -1
  | x :: rest =>
      if p x then 0
      else if findIndex p rest =? -1 then -1 else findIndex p rest + 1
  end.

(** The members that a plain object inherits from [Object.prototype]. *)
Definition objectPrototype : list string :=
  ["constructor"; "hasOwnProperty"; "isPrototypeOf"; "propertyIsEnumerable";
   "toLocaleString"; "toString"; "valueOf"; "__proto__";
   "__defineGetter__"; "__defineSetter__"; "__lookupGetter__"; "__lookupSetter__"].

Definition inherited (key : string) : bool :=
  existsb (String.eqb key) objectPrototype.

(** [obj[key]] where the source tests the result before it uses it: a
    property of the object itself, a member of [Object.prototype], which
    is neither [undefined] nor [null] and has no properties of a device,
    or [undefined]. *)
Inductive Member (A : Type) : Type :=
| Own (value : A)
| Inherited
| Undefined.

Arguments Inherited {A}.
Arguments Undefined {A}.

Definition member {A : Type} (key : string) (obj : JsObject A) : Member A :=
  match lookup key obj with
  | Some value => Own value
  | None => if inherited key then Inherited else Undefined
  end.

(** [isLastChild] of [getDeviceRow]: the parent is [devices[parents[0]]]
    if [parents[0]] is truthy.  Without a parent there are no siblings
    to compare with; [parentDevice?.children.v] throws for a parent that
    is only an inherited member, hence [None]. *)
Definition isLastChild (devices : Devices) (disk : string) (device : Device.t)
  : option bool :=
  let parentDevice :=
    match Device.parents device with
    | first :: _ => if String.eqb first "" then Undefined else member first devices
    | [] => Undefined
    end in
  match parentDevice with
  | Undefined => Some true
  | Inherited => None
  | Own parent =>
      Some (findIndex (fun child => String.eqb child disk) (Device.children parent)
            =? Z.of_nat (List.length (Device.children parent)) - 1)
  end.

(** Whether the class ["reclaim-space-modal-device-leaf"] is pushed:
    the block [if (!device.children.v.length) { ... }]. *)
Definition hasLeafClass (devices : Devices) (disk : string) (device : Device.t)
  : option bool :=
  if (List.length (Device.children device) =? 0)%nat
  then isLastChild devices disk device
  else Some false.

(** [getDeviceRow], flattened.  The recursion over [children] is bounded
    by [fuel]; [None] is an exception ([devices[disk]] is no device, or
    the leaf class cannot be worked out) or a recursion deeper than
    [fuel].  The class is worked out before the children are visited; a
    row keeps the device and the level, not the class. *)
Fixpoint getDeviceRow (fuel : nat) (devices : Devices) (disk : string) (level : nat)
  : option (list Row.t) :=
  match fuel with
  | O => None
  | S fuel' =>
      device <- lookup disk devices ;;
      leaf <- hasLeafClass devices disk device ;;
      below <- mapM (fun child => getDeviceRow fuel' devices child (S level))
                    (Device.children device) ;;
      Some (Row.Build disk device level :: List.concat below)
  end.

(** [selectedDisks.map(disk => getDeviceRow(disk, devices, 0, ...)).flat(Infinity)] *)
Definition getRows (fuel : nat) (devices : Devices) (selectedDisks : list string)
  : option (list Row.t) :=
  nested <- mapM (fun disk => getDeviceRow fuel devices disk 0%nat) selectedDisks ;;
  Some (List.concat nested).

(** ** The shrink popover: [ShrinkPopover] *)

Local Open Scope Q_scope.

(** [Math.round]: the nearest integer, halves upwards. *)
Definition round (x : Q) : Z := Qfloor (x + (1 # 2)).

Section ShrinkPopover.
(** [device.total.v] and [unitMultiplier[originalUnit]]. *)
Variable total : Z.
Variable unit : Q.

(** The [onChange] handler of the slider: the next [value] of the
    popover.  A typed [inputValue] wins over the [sliderValue].  The
    numbers of the source are doubles; they are read here as exact
    rationals, which is what the doubles give as long as their
    arithmetic is exact.  It need not be for [sliderValue / 100]: the
    theorems on the slider are about its two ends and about order,
    where the two readings agree. *)
Definition onChange (sliderValue inputValue : option Q) (value : Q) : Q :=
  match inputValue with
  | Some typed => Qmin (inject_Z total) (typed * unit)
  | None =>
      match sliderValue with
      | Some percent => inject_Z (round ((percent / 100) * inject_Z total))
      | None => value
      end
  end.

(** [isDisabled={value === 0 || value === device.total.v}] of "Resize". *)
Definition resizeIsDisabled (value : Q) : bool :=
  Qeq_bool value 0 || Qeq_bool value (inject_Z total).
End ShrinkPopover.

Local Close Scope Q_scope.

(** ** What the user can do: one click *)

(** A click on an enabled control of a row at levels 0 and 1.  The value
    a shrink is staged with is a byte count for which "Resize" is
    enabled; the answer of the shrinkability query may differ from click
    to click. *)
Inductive step (rows : list Row.t) : Ledger -> Ledger -> Prop :=
| step_shrink row shrinkable controls value ledger ledger' :
    In row rows ->
    DeviceActions shrinkable (Row.device row) (Row.level row) ledger = Some (Some controls) ->
    Controls.shrinkView controls = ShrinkButton false ->
    resizeIsDisabled (Device.total (Row.device row)) (inject_Z value) = false ->
    onShrink (Row.device row) value ledger = Some ledger' ->
    step rows ledger ledger'
| step_remove row shrinkable controls ledger ledger' :
    In row rows ->
    DeviceActions shrinkable (Row.device row) (Row.level row) ledger = Some (Some controls) ->
    Controls.deleteView controls = DeleteButton false ->
    onRemove (Row.device row) ledger = Some ledger' ->
    step rows ledger ledger'
| step_undo row shrinkable controls ledger ledger' :
    In row rows ->
    DeviceActions shrinkable (Row.device row) (Row.level row) ledger = Some (Some controls) ->
    Controls.undoButton controls = true ->
    onUndo (Row.device row) ledger = Some ledger' ->
    step rows ledger ledger'.

(** The ledgers a session can be in. *)
Inductive reachable (devices : Devices) (rows : list Row.t) : Ledger -> Prop :=
| reachable_initial : reachable devices rows (initialUnappliedActions devices)
| reachable_click ledger ledger' :
    reachable devices rows ledger -> step rows ledger ledger' ->
    reachable devices rows ledger'.

(** ** Confirmation: [onReclaim] *)

Inductive Call : Type :=
| CallRemoveDevice (deviceName : string)
| CallShrinkDevice (deviceName : string) (newSize : JsValue).

(** The two messages of [setDialogError]. *)
Inductive ErrorText : Type :=
| UnableToScheduleDeletion (device : string)
| UnableToScheduleResizing (device : string).

Section OnReclaim.
(** The remote side: its state, the payload of a rejected call, and the
    two calls of [apis/storage_partitioning_automatic_resizable.js]. *)
Variable Remote : Type.
Variable Payload : Type.
Variable removeDevice : string -> Remote -> Remote * option Payload.
Variable shrinkDevice : string -> JsValue -> Remote -> Remote * option Payload.

(** [{ ...error, text }] *)
Record DialogError : Type := {
  payload : Payload;
  text : ErrorText
}.

(** The state of [ReclaimSpaceModal] that [onReclaim] reads or sets. *)
Record Modal : Type := {
  unappliedActions : Ledger;
  dialogError : option DialogError;
  onNextClicked : bool
}.

(** The remote side together with the calls it has received, oldest first. *)
Record World : Type := {
  remote : Remote;
  received : list Call
}.

Definition toCall (device : string) (action : Action.t) : Call :=
  match Action.type action with
  | remove => CallRemoveDevice device
  | shrink => CallShrinkDevice device (Action.value action)
  end.

(** One [await] inside the [try]. *)
Definition submit (call : Call) (w : World) : World * option Payload :=
  let (next, answer) :=
    match call with
    | CallRemoveDevice deviceName => removeDevice deviceName (remote w)
    | CallShrinkDevice deviceName newSize => shrinkDevice deviceName newSize (remote w)
    end in
  ({| remote := next; received := received w ++ [call] |}, answer).

(** The [catch] block. *)
Definition toDialogError (device : string) (action : Action.t) (error : Payload) : DialogError :=
  match Action.type action with
  | remove => {| payload := error; text := UnableToScheduleDeletion device |}
  | shrink => {| payload := error; text := UnableToScheduleResizing device |}
  end.

(** The inner loop, [for (const action of actions)]; a [Some] result is
    the [return] out of [onReclaim]. *)
Fixpoint forActions (device : string) (actions : list Action.t) (w : World)
  : World * option DialogError :=
  match actions with
  | [] => (w, None)
  | action :: rest =>
      match submit (toCall device action) w with
      | (w', Some error) => (w', Some (toDialogError device action error))
      | (w', None) => forActions device rest w'
      end
  end.

(** The outer loop, [for (const item of Object.entries(unappliedActions))]. *)
Fixpoint forEntries (entries : Ledger) (w : World) : World * option DialogError :=
  match entries with
  | [] => (w, None)
  | (device, actions) :: rest =>
      match forActions device actions w with
      | (w', Some failure) => (w', Some failure)
      | (w', None) => forEntries rest w'
      end
  end.

Definition onReclaim (modal : Modal) (w : World) : World * Modal :=
  match forEntries (unappliedActions modal) w with
  | (w', Some failure) =>
      (w', {| unappliedActions := unappliedActions modal;
              dialogError := Some failure;
              onNextClicked := onNextClicked modal |})
  | (w', None) =>
      (w', {| unappliedActions := unappliedActions modal;
              dialogError := dialogError modal;
              onNextClicked := true |})
  end.

(** The calls staged in a ledger, in [Object.entries] order and, for
    one device, in the order they were pushed. *)
Definition stagedCalls (ledger : Ledger) : list (string * Action.t) :=
  flat_map (fun entry => map (fun action => (fst entry, action)) (snd entry)) ledger.



(** One loop over the staged calls in a row, for comparison with the
    two nested loops of the source. *)
Fixpoint forCalls (items : list (string * Action.t)) (w : World)
  : World * option DialogError :=
  match items with
  | [] => (w, None)
  | (device, action) :: rest =>
      match submit (toCall device action) w with
      | (w', Some error) => (w', Some (toDialogError device action error))
      | (w', None) => forCalls rest w'
      end
  end.

End OnReclaim.

(** ** The derived state of the specification

    The definitions of this part follow the words of the specification
    (sections 3, 4.2 and 4.3), not the source; the theorems compare them
    with the source. *)

Definition sumZ (xs : list Z) : Z := fold_right Z.add 0 xs.

Definition childrenOf (devices : Devices) (device : string) : list string :=
  match lookup device devices with
  | Some d => Device.children d
  | None => []
  end.

Definition totalBytes (devices : Devices) (device : string) : Z :=
  match lookup device devices with
  | Some d => Device.total d
  | None => 0
  end.

Definition freeBytes (devices : Devices) (device : string) : Z :=
  match lookup device devices with
  | Some d => Device.free d
  | None => 0
  end.

Section EffectiveState.
Variable devices : Devices.
Variable ledger : Ledger.

(** The sequence of a device; empty for a name that is no key. *)
Definition actionsOf (device : string) : list Action.t :=
  match lookup device ledger with
  | Some actions => actions
  | None => []
  end.

Definition hasAction (type : ActionType) (device : string) : bool :=
  includes type (map Action.type (actionsOf device)).

Definition isShrinkAction (action : Action.t) : bool :=
  ActionType_eqb (Action.type action) shrink.

(** "A device is effectively removed if it has a remove action or any
    ancestor (transitive, via parents) is effectively removed." *)
Inductive effectivelyRemoved : string -> Prop :=
| removed_itself device :
    hasAction remove device = true -> effectivelyRemoved device
| removed_above device ancestor :
    reaches (parentsOf devices) device ancestor ->
    effectivelyRemoved ancestor -> effectivelyRemoved device.

(** [isEffectivelyRemoved], "evaluated by walking ancestors". *)
Definition isEffectivelyRemoved (device : string) : bool :=
  hasAction remove device
  || existsb (hasAction remove) (getDeviceAncestors devices device).

(** "... whose nearest ancestor is not itself effectively removed": the
    nearest ancestors of a device are its parents. *)
Definition nearestAncestorRemoved (device : string) : bool :=
  existsb isEffectivelyRemoved (parentsOf devices device).

Definition ancestorRemoved (device : string) : bool :=
  existsb isEffectivelyRemoved (getDeviceAncestors devices device).

Definition mostRecent (device : string) : option Action.t :=
  match actionsOf device with
  | [] => None
  | first :: rest => Some (last rest first)
  end.

Definition mostRecentIsShrink (device : string) : bool :=
  match mostRecent device with
  | Some action => isShrinkAction action
  | None => false
  end.

(** "Effectively shrunk: its own sequence's most recent action is shrink
    and it is not effectively removed." *)
Definition isEffectivelyShrunk (device : string) : bool :=
  mostRecentIsShrink device && negb (isEffectivelyRemoved device).

Definition currentShrinkTarget (device : string) : option JsValue :=
  if isEffectivelyShrunk device then option_map Action.value (mostRecent device)
  else None.

(** "True iff sequence non-empty and no ancestor is effectively removed." *)
Definition hasAnyAction (device : string) : bool :=
  negb (List.length (actionsOf device) =? 0)%nat && negb (ancestorRemoved device).

(** [reclaimedBytes(remove)] *)
Definition countsAsRemoved (device : string) : bool :=
  isEffectivelyRemoved device && negb (nearestAncestorRemoved device).

Definition usedBytes (device : string) : Z :=
  totalBytes devices device - freeBytes devices device.

Definition reclaimedBytesRemove : Z :=
  sumZ (map usedBytes (filter countsAsRemoved (keys ledger))).

(** [reclaimedBytes(shrink)]: every shrink action of the sequence counts. *)
Definition countsAsShrunk (device : string) : bool :=
  mostRecentIsShrink device && negb (isEffectivelyRemoved device).

Definition shrunkBytes (device : string) : Z :=
  sumZ (map (fun action => totalBytes devices device - toNumber (Action.value action))
            (filter isShrinkAction (actionsOf device))).

Definition reclaimedBytesShrink : Z :=
  sumZ (map shrunkBytes (filter countsAsShrunk (keys ledger))).

(** The source's shrink sum without its exceptions: every action of a
    sequence is added up, whatever its type, for the devices that hold
    a shrink and lie below no remove. *)
Definition allActionsBytes (device : string) : Z :=
  sumZ (map (fun action => totalBytes devices device - toNumber (Action.value action))
            (actionsOf device)).

Definition hasShrinkBelowNoRemove (device : string) : bool :=
  hasAction shrink device
  && negb (existsb (hasAction remove) (getDeviceAncestors devices device)).

End EffectiveState.

(** ** The remote executor of the specification

    Sections 4.5 and 6: the executor takes "remove(deviceName)" and
    "shrink(deviceName, newSize)", "each may succeed or fail with an
    error payload".  The definitions of this part are written over the
    two operations of the executor alone. *)

(** The request that stands for a staged action. *)
Definition request (item : string * Action.t) : Call :=
  match item with
  | (deviceName, Action.Build remove _) => CallRemoveDevice deviceName
  | (deviceName, Action.Build shrink newSize) => CallShrinkDevice deviceName newSize
  end.

(** The message shown for a staged action that was rejected. *)
Definition message (item : string * Action.t) : ErrorText :=
  match item with
  | (deviceName, Action.Build remove _) => UnableToScheduleDeletion deviceName
  | (deviceName, Action.Build shrink _) => UnableToScheduleResizing deviceName
  end.

Section RemoteExecutor.
Variable Remote : Type.
Variable Payload : Type.
Variable removeDevice : string -> Remote -> Remote * option Payload.
Variable shrinkDevice : string -> JsValue -> Remote -> Remote * option Payload.

(** What the executor makes of a staged action: its next state and,
    for a failure, the error payload. *)
Definition perform (item : string * Action.t) (state : Remote) : Remote * option Payload :=
  match item with
  | (deviceName, Action.Build remove _) => removeDevice deviceName state
  | (deviceName, Action.Build shrink newSize) => shrinkDevice deviceName newSize state
  end.

(** The state of the executor after a list of staged actions. *)
Fixpoint performAll (items : list (string * Action.t)) (state : Remote) : Remote :=
  match items with
  | [] => state
  | item :: rest => performAll rest (fst (perform item state))
  end.

(** Every staged action of the list succeeds, one after the other. *)
Fixpoint allSucceed (items : list (string * Action.t)) (state : Remote) : Prop :=
  match items with
  | [] => True
  | item :: rest =>
      snd (perform item state) = None /\ allSucceed rest (fst (perform item state))
  end.

(** The answers of the executor do not depend on what it did before. *)
Definition answersFixed : Prop :=
  forall item state state', snd (perform item state) = snd (perform item state').
End RemoteExecutor.

(** The devices under the selected disks: the disks themselves and what
    is found from them along [children]. *)
Inductive underSelectedDisks (devices : Devices) (selectedDisks : list string)
  : string -> Prop :=
| under_disk disk :
    In disk selectedDisks -> underSelectedDisks devices selectedDisks disk
| under_child disk device :
    In disk selectedDisks -> reaches (childrenOf devices) disk device ->
    underSelectedDisks devices selectedDisks device.

(** ** Well-formed snapshots and ledgers *)

(** Every parent named by a device is a device of the snapshot. *)
Definition parentsClosed (devices : Devices) : bool :=
  forallb (fun parent => isSome (lookup parent devices)) (parentNames devices).

(** Every device is filed under its own name. *)
Definition namesAreKeys (devices : Devices) : bool :=
  forallb (fun entry => String.eqb (Device.name (snd entry)) (fst entry)) devices.

(** No sequence holds both a remove and a shrink. *)
Definition unmixed (ledger : Ledger) : bool :=
  forallb (fun entry =>
             negb (includes remove (map Action.type (snd entry))
                   && includes shrink (map Action.type (snd entry))))
          ledger.

(** ** Scenarios of the specification *)

Definition sda : Device.t :=
  Device.Build "sda" "disk" 100 20 [] ["sda1"].

Definition sda1 : Device.t :=
  Device.Build "sda1" "partition" 80 20 ["sda"] [].

Definition oneDisk : Devices := [("sda", sda); ("sda1", sda1)].

(** Three levels, and a disk that is also listed under another disk. *)
Definition md0p1 : Device.t :=
  Device.Build "md0p1" "partition" 60 10 ["md0"] [].

Definition md0 : Device.t :=
  Device.Build "md0" "mdarray" 90 0 ["sdb"] ["md0p1"].

Definition sdb : Device.t :=
  Device.Build "sdb" "disk" 100 0 [] ["md0"].

Definition raidDisks : Devices := [("sdb", sdb); ("md0", md0); ("md0p1", md0p1)].

(** A device of 400 bytes with 50 free next to one of 100 bytes. *)
Definition vda : Device.t :=
  Device.Build "vda" "disk" 600 100 [] ["vda1"; "vda2"].

Definition vda1 : Device.t :=
  Device.Build "vda1" "partition" 400 50 ["vda"] [].

Definition vda2 : Device.t :=
  Device.Build "vda2" "partition" 100 30 ["vda"] [].

Definition twoPartitions : Devices :=
  [("vda", vda); ("vda1", vda1); ("vda2", vda2)].

Definition staged (type : ActionType) (value : JsValue) : Action.t :=
  Action.Build type value.

Definition bothRemoved : Ledger :=
  [("sda", [staged remove JsEmptyString]); ("sda1", [staged remove JsEmptyString])].

(** A sequence that holds a shrink and then a remove, and one with a
    superseded shrink. *)
Definition shrunkThenRemoved : Ledger :=
  [("sda", []); ("sda1", [staged shrink (JsNum 50); staged remove JsEmptyString])].

Definition shrunkTwice : Ledger :=
  [("sda", []); ("sda1", [staged shrink (JsNum 50); staged shrink (JsNum 30)])].

(** The partition of the array is shrunk, the disk below the array removed. *)
Definition raidSelection : list string := ["sdb"; "md0"].

Definition diskRemovedUnderArray : Ledger :=
  [("sdb", [staged remove JsEmptyString]); ("md0", []);
   ("md0p1", [staged shrink (JsNum 20)])].

(** The table of that selection: md0 and md0p1 are listed twice. *)
Definition raidRows : list Row.t :=
  [Row.Build "sdb" sdb 0; Row.Build "md0" md0 1; Row.Build "md0p1" md0p1 2;
   Row.Build "md0" md0 0; Row.Build "md0p1" md0p1 1].

(** vda1 is removed; then vda2 is shrunk to 40 as well. *)
Definition partitionRemoved : Ledger :=
  [("vda", []); ("vda1", [staged remove JsEmptyString]); ("vda2", [])].

Definition partitionRemovedAndShrunk : Ledger :=
  [("vda", []); ("vda1", [staged remove JsEmptyString]);
   ("vda2", [staged shrink (JsNum 40)])].

(** A disk with one partition next to a disk that is not selected. *)
Definition vdb : Device.t :=
  Device.Build "vdb" "disk" 200 0 [] [].

Definition diskAndSpare : Devices := [("sda", sda); ("sda1", sda1); ("vdb", vdb)].

(** An array without partitions that is installed to as a disk. *)
Definition md1 : Device.t :=
  Device.Build "md1" "mdarray" 50 0 [] [].

Definition bareArray : Devices := [("md1", md1)].

Definition arrayRemoved : Ledger := [("md1", [staged remove JsEmptyString])].

(** A remote side that counts the calls it accepted and rejects every
    shrink below 10 bytes. *)
Definition countingRemove (deviceName : string) (accepted : nat) : nat * option string :=
  (S accepted, None).

Definition countingShrink (deviceName : string) (newSize : JsValue) (accepted : nat)
  : nat * option string :=
  if toNumber newSize <? 10 then (accepted, Some "too small") else (S accepted, None).

Definition threeStaged : Ledger :=
  [("vda", []); ("vda1", [staged remove JsEmptyString]);
   ("vda2", [staged shrink (JsNum 5)]); ("vda3", [staged remove JsEmptyString])].

(** What the controls let a sequence be: empty, one remove, or one
    shrink to a size other than [0]. *)
Definition atMostOneAction (actions : list Action.t) : Prop :=
  actions = []
  \/ actions = [staged remove JsEmptyString]
  \/ exists size, size <> 0 /\ actions = [staged shrink (JsNum size)].

(** The three kinds of click change the sequence of one device. *)
Inductive Change : Type :=
| ChangeShrink (size : Z)
| ChangeRemove
| ChangeUndo.

Definition applyChange (change : Change) : list Action.t -> list Action.t :=
  match change with
  | ChangeShrink size => push (staged shrink (JsNum size))
  | ChangeRemove => push (staged remove JsEmptyString)
  | ChangeUndo => pop
  end.

Definition offered (change : Change) (device : Device.t) (controls : Controls.t) : Prop :=
  match change with
  | ChangeShrink size =>
      Controls.shrinkView controls = ShrinkButton false
      /\ resizeIsDisabled (Device.total device) (inject_Z size) = false
  | ChangeRemove => Controls.deleteView controls = DeleteButton false
  | ChangeUndo => Controls.undoButton controls = true
  end.

(** ** The effect that follows a confirmation *)

Section OnNextEffect.
Variable Payload : Type.

End OnNextEffect.

(** A partition whose parent is named like a member of
    [Object.prototype] and is no device of the snapshot. *)
Definition sdc1 : Device.t :=
  Device.Build "sdc1" "partition" 10 0 ["toString"] [].

Definition strayPartition : Devices := [("sdc1", sdc1)].

(** A snapshot whose only device lists itself among its children. *)
Definition loop0 : Device.t :=
  Device.Build "loop0" "loop" 10 0 [] ["loop0"].

Definition selfNested : Devices := [("loop0", loop0)].

(** The rows of one level. *)
Definition atLevel (level : nat) (row : Row.t) : bool :=
  (Row.level row =? level)%nat.

(** How far below a device its subtree reaches, in [raidDisks]. *)
Definition raidDepth (name : string) : nat :=
  if String.eqb name "sdb" then 2
  else if String.eqb name "md0" then 1
  else 0.

(** * Proofs *)

(** ** Objects *)

Section JsObjectFacts.
Context {A : Type}.
Implicit Types (obj : JsObject A) (key : string).

Lemma lookup_In obj key v : lookup key obj = Some v -> In (key, v) obj.
Proof.
  induction obj as [|[k w] rest IH]; simpl; [discriminate|].
  destruct (String.eqb_spec key k) as [->|_].
  - intros [= ->]. now left.
  - intros H. right. auto.
Qed.

Lemma lookup_In_keys obj key v : lookup key obj = Some v -> In key (keys obj).
Proof.
  intros H. apply lookup_In in H. unfold keys.
  change key with (fst (key, v)). now apply in_map.
Qed.

Lemma In_keys_lookup obj key : In key (keys obj) -> exists v, lookup key obj = Some v.
Proof.
  induction obj as [|[k w] rest IH]; simpl; [tauto|].
  intros H. destruct (String.eqb_spec key k) as [->|Hne]; [now exists w|].
  destruct H as [H|H]; [congruence|auto].
Qed.

Lemma keys_update obj key f : keys (update key f obj) = keys obj.
Proof.
  unfold keys. induction obj as [|[k w] rest IH]; simpl; [reflexivity|].
  destruct (String.eqb key k); simpl; congruence.
Qed.

Lemma lookup_update_same obj key f :
  lookup key (update key f obj) = option_map f (lookup key obj).
Proof.
  induction obj as [|[k w] rest IH]; simpl; [reflexivity|].
  destruct (String.eqb key k) eqn:E; simpl; rewrite E; [reflexivity|exact IH].
Qed.

Lemma lookup_update_other obj key other f :
  other <> key -> lookup other (update key f obj) = lookup other obj.
Proof.
  intros Hne. induction obj as [|[k w] rest IH]; simpl; [reflexivity|].
  destruct (String.eqb_spec key k) as [->|Hk]; simpl.
  - destruct (String.eqb_spec other k); [congruence|reflexivity].
  - destruct (String.eqb other k); [reflexivity|exact IH].
Qed.

Lemma update_update obj key f g :
  update key g (update key f obj) = update key (fun v => g (f v)) obj.
Proof.
  induction obj as [|[k w] rest IH]; simpl; [reflexivity|].
  destruct (String.eqb key k) eqn:E; simpl; rewrite E; [reflexivity|].
  now rewrite IH.
Qed.

Lemma update_unchanged obj key f :
  (forall v, lookup key obj = Some v -> f v = v) -> update key f obj = obj.
Proof.
  induction obj as [|[k w] rest IH]; simpl; [reflexivity|].
  destruct (String.eqb key k) eqn:E; intros H.
  - now rewrite (H w eq_refl).
  - now rewrite (IH H).
Qed.
End JsObjectFacts.

Lemma pop_push action actions : pop (push action actions) = actions.
Proof. unfold pop, push. apply removelast_last. Qed.

Lemma bind_Some {A B : Type} (m : option A) (k : A -> option B) (b : B) :
  (x <- m ;; k x) = Some b -> exists a, m = Some a /\ k a = Some b.
Proof. destruct m as [a|]; simpl; [eauto|discriminate]. Qed.

(** ** The breadth-first walk finds what [reaches] describes *)

Section ClosureFacts.
Variable succ : string -> list string.
Variable universe : list string.
Hypothesis succ_in_universe : forall x y, In y (succ x) -> In y universe.
Variable start : list string.

Lemma seenIn_true seen x : seenIn seen x = true <-> In x seen.
Proof.
  unfold seenIn. rewrite existsb_exists. split.
  - intros (y & Hy & E). apply String.eqb_eq in E. now subst.
  - intros H. exists x. split; [assumption|apply String.eqb_refl].
Qed.

Lemma fresh_In seen xs x : In x (fresh seen xs) <-> In x xs /\ ~ In x seen.
Proof.
  unfold fresh. rewrite nodup_In, filter_In, negb_true_iff.
  rewrite <- (seenIn_true seen x). destruct (seenIn seen x); intuition congruence.
Qed.

Lemma fresh_nil seen xs : fresh seen xs = [] -> incl xs seen.
Proof.
  intros E x Hx. destruct (in_dec string_dec x seen) as [|Hn]; [assumption|].
  assert (H : In x (fresh seen xs)) by (apply fresh_In; tauto).
  rewrite E in H. destruct H.
Qed.

Lemma reaches_snoc x y z : reaches succ x y -> In z (succ y) -> reaches succ x z.
Proof.
  induction 1 as [x y H|x y w H _ IH]; intros Hz.
  - eapply reaches_more; [exact H|now apply reaches_step].
  - eapply reaches_more; [exact H|auto].
Qed.

Lemma reaches_trans x y z : reaches succ x y -> reaches succ y z -> reaches succ x z.
Proof.
  induction 1 as [x y H|x y w H _ IH]; intros Hz.
  - eapply reaches_more; eassumption.
  - eapply reaches_more; [exact H|auto].
Qed.

Lemma reaches_in_universe x y : reaches succ x y -> In y universe.
Proof. induction 1; eauto. Qed.

Lemma walk_sound_closed fuel : forall frontier seen,
  NoDup seen ->
  (forall x, In x seen -> foundFrom succ start x) ->
  (forall x, In x frontier -> In x start \/ In x seen) ->
  (forall x, In x start \/ In x seen -> ~ In x frontier -> incl (succ x) seen) ->
  (List.length universe < fuel + List.length seen)%nat ->
  (forall x, In x (walk succ fuel frontier seen) -> foundFrom succ start x) /\
  (forall x, In x start \/ In x (walk succ fuel frontier seen) ->
             incl (succ x) (walk succ fuel frontier seen)).
Proof.
  induction fuel as [|fuel IH]; intros frontier seen Hnd Hsound Hfront Hclosed Hfuel.
  - exfalso.
    assert (Hle : (List.length seen <= List.length universe)%nat).
    { apply NoDup_incl_length; [assumption|].
      intros x Hx. destruct (Hsound x Hx) as (s & _ & Hr).
      eapply reaches_in_universe; eassumption. }
    simpl in Hfuel. lia.
  - simpl. remember (fresh seen (flat_map succ frontier)) as next eqn:E.
    destruct next as [|n next'].
    + split; [assumption|]. intros x Hx.
      destruct (in_dec string_dec x frontier) as [Hin|Hout].
      * intros y Hy. apply (fresh_nil seen (flat_map succ frontier)); [now symmetry|].
        apply in_flat_map. eauto.
      * now apply Hclosed.
    + assert (Hnext : forall x, In x (n :: next') <->
                                In x (flat_map succ frontier) /\ ~ In x seen).
      { intros x. rewrite E. apply fresh_In. }
      apply IH.
      * apply NoDup_app; [assumption| |].
        -- rewrite E. apply NoDup_nodup.
        -- intros x Hx Hx'. apply Hnext in Hx'. tauto.
      * intros x Hx. apply in_app_or in Hx. destruct Hx as [Hx|Hx]; [auto|].
        apply Hnext in Hx. destruct Hx as [Hx _].
        apply in_flat_map in Hx. destruct Hx as (f & Hf & Hx).
        destruct (Hfront f Hf) as [Hs|Hs].
        -- exists f. split; [assumption|now apply reaches_step].
        -- destruct (Hsound f Hs) as (s & Hs' & Hr).
           exists s. split; [assumption|]. eapply reaches_snoc; eassumption.
      * intros x Hx. right. apply in_or_app. now right.
      * intros x Hx Hout y Hy. apply in_or_app.
        destruct (in_dec string_dec x frontier) as [Hin|Hnin].
        -- destruct (in_dec string_dec y seen) as [|Hy']; [now left|].
           right. apply Hnext. split; [|assumption].
           apply in_flat_map. eauto.
        -- left. apply (Hclosed x); [|assumption|assumption].
           destruct Hx as [Hx|Hx]; [now left|].
           apply in_app_or in Hx. destruct Hx as [Hx|Hx]; [now right|contradiction].
      * rewrite length_app. simpl. simpl in Hfuel. lia.
Qed.

Lemma walk_spec fuel x :
  (List.length universe < fuel)%nat ->
  In x (walk succ fuel start []) <-> foundFrom succ start x.
Proof.
  intros Hfuel.
  destruct (@walk_sound_closed fuel start []) as [Hsound Hclosed].
  - constructor.
  - intros y [].
  - intros y Hy. now left.
  - intros y [Hy|[]] Hout. contradiction.
  - simpl. lia.
  - split; [apply Hsound|].
    intros (s & Hs & Hr).
    assert (G : forall a b, reaches succ a b ->
                  In a start \/ In a (walk succ fuel start []) ->
                  In b (walk succ fuel start [])).
    { induction 1 as [a b H|a b c H _ IH]; intros Ha.
      - now apply (Hclosed a).
      - apply IH. right. now apply (Hclosed a). }
    apply (G s x Hr). now left.
Qed.
End ClosureFacts.

(** ** Ancestors *)

Lemma parentsOf_in_parentNames devices x y :
  In y (parentsOf devices x) -> In y (parentNames devices).
Proof.
  unfold parentsOf, parentNames. destruct (lookup x devices) as [d|] eqn:E; [|intros []].
  intros H. apply in_flat_map. exists (x, d). split; [now apply lookup_In|exact H].
Qed.

Lemma getDeviceAncestors_spec devices device ancestor :
  In ancestor (getDeviceAncestors devices device)
  <-> reaches (parentsOf devices) device ancestor.
Proof.
  unfold getDeviceAncestors.
  rewrite (@walk_spec (parentsOf devices) (parentNames devices)
             (parentsOf_in_parentNames devices) [device]); [|lia].
  unfold foundFrom. split.
  - intros (s & [<-|[]] & H). exact H.
  - intros H. exists device. split; [now left|exact H].
Qed.

Lemma getDeviceAncestors_unfold devices device ancestor :
  In ancestor (getDeviceAncestors devices device)
  <-> exists parent, In parent (parentsOf devices device) /\
        (ancestor = parent \/ In ancestor (getDeviceAncestors devices parent)).
Proof.
  rewrite getDeviceAncestors_spec. split.
  - intros H. inversion H as [x y Hy|x y z Hy Hz]; subst.
    + exists ancestor. auto.
    + exists y. split; [assumption|]. right. now apply getDeviceAncestors_spec.
  - intros (parent & Hp & [->|H]).
    + now apply reaches_step.
    + eapply reaches_more; [exact Hp|]. now apply getDeviceAncestors_spec.
Qed.

Lemma forallb_isSome_keys {A : Type} (obj : JsObject A) names name :
  forallb (fun n => isSome (lookup n obj)) names = true ->
  In name names -> In name (keys obj).
Proof.
  rewrite forallb_forall. intros H Hin. specialize (H name Hin).
  destruct (lookup name obj) eqn:E; [|discriminate].
  eapply lookup_In_keys; eassumption.
Qed.

Lemma getDeviceAncestors_keys devices device ancestor :
  parentsClosed devices = true ->
  In ancestor (getDeviceAncestors devices device) -> In ancestor (keys devices).
Proof.
  intros Hclosed H. apply getDeviceAncestors_spec in H.
  eapply forallb_isSome_keys; [exact Hclosed|].
  eapply reaches_in_universe; [apply parentsOf_in_parentNames|exact H].
Qed.

(** ** Loops that do not throw *)

Lemma someM_pure {A : Type} (p : A -> option bool) (q : A -> bool) xs :
  (forall x, In x xs -> p x = Some (q x)) -> someM p xs = Some (existsb q xs).
Proof.
  induction xs as [|x rest IH]; intros H; simpl; [reflexivity|].
  rewrite (H x (or_introl eq_refl)). simpl.
  destruct (q x); [reflexivity|]. apply IH. intros y Hy. apply H. now right.
Qed.

Lemma filterM_pure {A : Type} (p : A -> option bool) (q : A -> bool) xs :
  (forall x, In x xs -> p x = Some (q x)) -> filterM p xs = Some (filter q xs).
Proof.
  induction xs as [|x rest IH]; intros H; simpl; [reflexivity|].
  rewrite (H x (or_introl eq_refl)). simpl.
  rewrite IH by (intros y Hy; apply H; now right). reflexivity.
Qed.

Lemma reduceM_sum {A : Type} (f : Z -> A -> option Z) (g : A -> Z) xs :
  (forall x acc, In x xs -> f acc x = Some (acc + g x)) ->
  forall init, reduceM f xs init = Some (init + sumZ (map g xs)).
Proof.
  induction xs as [|x rest IH]; intros H init; simpl.
  - f_equal. lia.
  - rewrite (H x init (or_introl eq_refl)). simpl.
    rewrite IH by (intros y acc Hy; apply H; now right). f_equal. lia.
Qed.

Lemma filter_map_ext {A : Type} (p q : A -> bool) (g h : A -> Z) xs :
  (forall x, In x xs -> p x = q x) ->
  (forall x, In x xs -> q x = true -> g x = h x) ->
  sumZ (map g (filter p xs)) = sumZ (map h (filter q xs)).
Proof.
  induction xs as [|x rest IH]; intros Hp Hg; simpl; [reflexivity|].
  rewrite (Hp x (or_introl eq_refl)).
  assert (E : sumZ (map g (filter p rest)) = sumZ (map h (filter q rest))).
  { apply IH; intros y Hy; [apply Hp|apply Hg]; now right. }
  destruct (q x) eqn:Hq; simpl; [|exact E].
  rewrite E. rewrite (Hg x (or_introl eq_refl) Hq). reflexivity.
Qed.

(** ** Effective removal *)

Section EffectiveFacts.
Variable devices : Devices.
Variable ledger : Ledger.

Lemma isEffectivelyRemoved_spec device :
  isEffectivelyRemoved devices ledger device = true
  <-> effectivelyRemoved devices ledger device.
Proof.
  unfold isEffectivelyRemoved. rewrite orb_true_iff, existsb_exists. split.
  - intros [H|(a & Ha & H)].
    + now apply removed_itself.
    + eapply removed_above; [apply getDeviceAncestors_spec; exact Ha|].
      now apply removed_itself.
  - induction 1 as [d H|d a Hr _ IH].
    + now left.
    + right. destruct IH as [H|(b & Hb & H)].
      * exists a. split; [now apply getDeviceAncestors_spec|exact H].
      * exists b. split; [|exact H]. apply getDeviceAncestors_spec.
        eapply reaches_trans; [exact Hr|now apply getDeviceAncestors_spec].
Qed.

(** Some ancestor holds a remove exactly when a parent is effectively removed. *)
Lemma ancestor_has_remove device :
  existsb (hasAction ledger remove) (getDeviceAncestors devices device)
  = nearestAncestorRemoved devices ledger device.
Proof.
  unfold nearestAncestorRemoved. apply eq_true_iff_eq.
  rewrite !existsb_exists. split.
  - intros (a & Ha & H). apply getDeviceAncestors_unfold in Ha.
    destruct Ha as (p & Hp & Ha). exists p. split; [assumption|].
    unfold isEffectivelyRemoved. apply orb_true_iff.
    destruct Ha as [->|Ha]; [now left|]. right. apply existsb_exists. eauto.
  - intros (p & Hp & H). unfold isEffectivelyRemoved in H.
    apply orb_true_iff in H. destruct H as [H|H].
    + exists p. split; [|exact H]. apply getDeviceAncestors_unfold. eauto.
    + apply existsb_exists in H. destruct H as (a & Ha & H).
      exists a. split; [|exact H]. apply getDeviceAncestors_unfold. eauto.
Qed.

(** ... and exactly when an ancestor is effectively removed. *)
Lemma ancestor_has_remove_transitive device :
  existsb (hasAction ledger remove) (getDeviceAncestors devices device)
  = ancestorRemoved devices ledger device.
Proof.
  unfold ancestorRemoved. apply eq_true_iff_eq.
  rewrite !existsb_exists. split.
  - intros (a & Ha & H). exists a. split; [assumption|].
    unfold isEffectivelyRemoved. now rewrite H.
  - intros (a & Ha & H). unfold isEffectivelyRemoved in H.
    apply orb_true_iff in H. destruct H as [H|H]; [eauto|].
    apply existsb_exists in H. destruct H as (b & Hb & H).
    exists b. split; [|exact H]. apply getDeviceAncestors_spec.
    eapply reaches_trans; apply getDeviceAncestors_spec; eassumption.
Qed.

Lemma countsAsRemoved_code device :
  countsAsRemoved devices ledger device
  = hasAction ledger remove device
    && negb (existsb (hasAction ledger remove) (getDeviceAncestors devices device)).
Proof.
  unfold countsAsRemoved, isEffectivelyRemoved.
  rewrite <- ancestor_has_remove.
  destruct (hasAction ledger remove device), (existsb _ _); reflexivity.
Qed.

(** The executable predicates say what the words of the specification say. *)
Lemma countsAsRemoved_spec device :
  countsAsRemoved devices ledger device = true
  <-> effectivelyRemoved devices ledger device
      /\ forall parent, In parent (parentsOf devices device) ->
                        ~ effectivelyRemoved devices ledger parent.
Proof.
  unfold countsAsRemoved, nearestAncestorRemoved.
  rewrite andb_true_iff, negb_true_iff, isEffectivelyRemoved_spec.
  rewrite <- not_true_iff_false, existsb_exists. split.
  - intros [H Hnone]. split; [assumption|]. intros parent Hp Hrem.
    apply Hnone. exists parent. split; [assumption|].
    now apply isEffectivelyRemoved_spec.
  - intros [H Hnone]. split; [assumption|]. intros (parent & Hp & Hrem).
    apply (Hnone parent Hp). now apply isEffectivelyRemoved_spec.
Qed.

Lemma countsAsShrunk_spec device :
  countsAsShrunk devices ledger device = true
  <-> mostRecentIsShrink ledger device = true
      /\ ~ effectivelyRemoved devices ledger device.
Proof.
  unfold countsAsShrunk.
  rewrite andb_true_iff, negb_true_iff, <- not_true_iff_false.
  now rewrite isEffectivelyRemoved_spec.
Qed.

Lemma ancestorRemoved_spec device :
  ancestorRemoved devices ledger device = true
  <-> exists ancestor, reaches (parentsOf devices) device ancestor
                       /\ effectivelyRemoved devices ledger ancestor.
Proof.
  unfold ancestorRemoved. rewrite existsb_exists.
  split; intros (a & Ha & H); exists a.
  - split; [now apply getDeviceAncestors_spec|now apply isEffectivelyRemoved_spec].
  - split; [now apply getDeviceAncestors_spec|now apply isEffectivelyRemoved_spec].
Qed.

(** *** The source's predicates on well-formed input *)

Hypothesis same_keys : keys ledger = keys devices.
Hypothesis parents_closed : parentsClosed devices = true.

Lemma isDeviceRemoved_key device :
  In device (keys ledger) ->
  isDeviceRemoved ledger device = Some (hasAction ledger remove device).
Proof.
  intros H. apply In_keys_lookup in H. destruct H as (actions & E).
  unfold isDeviceRemoved, hasAction, actionsOf. now rewrite E.
Qed.

Lemma isDeviceResized_key device :
  In device (keys ledger) ->
  isDeviceResized ledger device = Some (hasAction ledger shrink device).
Proof.
  intros H. apply In_keys_lookup in H. destruct H as (actions & E).
  unfold isDeviceResized, hasAction, actionsOf. now rewrite E.
Qed.

Lemma isDeviceParentRemoved_pure device :
  isDeviceParentRemoved devices ledger device
  = Some (existsb (hasAction ledger remove) (getDeviceAncestors devices device)).
Proof.
  unfold isDeviceParentRemoved. apply someM_pure. intros a Ha.
  apply isDeviceRemoved_key. rewrite same_keys.
  eapply getDeviceAncestors_keys; eassumption.
Qed.

Lemma andNotParentRemoved_pure (p : string -> option bool) (q : string -> bool) device :
  p device = Some (q device) ->
  andNotParentRemoved devices ledger p device
  = Some (q device
          && negb (existsb (hasAction ledger remove) (getDeviceAncestors devices device))).
Proof.
  intros E. unfold andNotParentRemoved. rewrite E. simpl.
  destruct (q device); [|reflexivity].
  now rewrite isDeviceParentRemoved_pure.
Qed.

Lemma key_is_device device :
  In device (keys ledger) -> exists d, lookup device devices = Some d.
Proof. rewrite same_keys. apply In_keys_lookup. Qed.

Lemma remove_code_pure :
  getReclaimableSpaceFromAction devices ledger remove
  = Some (reclaimedBytesRemove devices ledger).
Proof.
  unfold getReclaimableSpaceFromAction, reclaimedBytesRemove.
  rewrite (filterM_pure _ (countsAsRemoved devices ledger)).
  - simpl. rewrite (reduceM_sum _ (usedBytes devices)); [reflexivity|].
    intros device acc H. apply filter_In in H. destruct H as [H _].
    destruct (key_is_device _ H) as (d & E).
    unfold addUsedSpace, usedBytes, totalBytes, freeBytes. rewrite E. simpl.
    f_equal. lia.
  - intros device H. rewrite countsAsRemoved_code.
    apply andNotParentRemoved_pure. now apply isDeviceRemoved_key.
Qed.
End EffectiveFacts.

Lemma filter_single {A : Type} (q : A -> bool) (xs : list A) (p : A) :
  NoDup xs -> In p xs -> (forall x, In x xs -> q x = true <-> x = p) ->
  filter q xs = [p].
Proof.
  induction xs as [|x rest IH]; intros Hnd Hin Hq; [destruct Hin|].
  inversion Hnd as [|? ? Hx Hrest]; subst. simpl.
  destruct (q x) eqn:E.
  - assert (x = p) by (apply Hq; [now left|exact E]). subst x.
    f_equal. destruct (filter q rest) as [|y ys] eqn:F; [reflexivity|].
    exfalso. assert (Hy : In y (filter q rest)) by (rewrite F; now left).
    apply filter_In in Hy. destruct Hy as [Hy Hqy].
    apply Hq in Hqy; [|now right]. subst y. contradiction.
  - destruct Hin as [->|Hin].
    + assert (q p = true) by (apply Hq; [now left|reflexivity]). congruence.
    + apply IH; [assumption|assumption|].
      intros y Hy. apply Hq. now right.
Qed.

(** ** Removal accounting *)

(** C1.  On a snapshot whose parents are all devices and a ledger with
    the snapshot's keys, [getReclaimableSpaceFromAction] for "remove"
    returns the sum of total minus free over the devices that are
    effectively removed and none of whose parents is effectively
    removed ([countsAsRemoved], which is just that).  When the staged removes sit on one device and on devices
    below it only, the result is that device's total minus free alone.
    On the scenario of the specification, staging remove(sda1) yields
    60, and staging remove(sda) on top of it yields 80. *)
Theorem reclaimed_remove_counts_topmost_removed :
  (forall devices ledger,
     keys ledger = keys devices ->
     parentsClosed devices = true ->
     getReclaimableSpaceFromAction devices ledger remove
     = Some (reclaimedBytesRemove devices ledger)
     /\ forall parent,
         NoDup (keys ledger) ->
         In parent (keys ledger) ->
         hasAction ledger remove parent = true ->
         ~ reaches (parentsOf devices) parent parent ->
         (forall device, hasAction ledger remove device = true ->
                         device = parent \/ reaches (parentsOf devices) device parent) ->
         getReclaimableSpaceFromAction devices ledger remove
         = Some (totalBytes devices parent - freeBytes devices parent))
  /\ (forall devices ledger device,
         countsAsRemoved devices ledger device = true
         <-> effectivelyRemoved devices ledger device
             /\ forall parent, In parent (parentsOf devices device) ->
                               ~ effectivelyRemoved devices ledger parent)
  /\ (ledger1 <- onRemove sda1 (initialUnappliedActions oneDisk) ;;
      getReclaimableSpaceFromAction oneDisk ledger1 remove) = Some 60
  /\ (ledger1 <- onRemove sda1 (initialUnappliedActions oneDisk) ;;
      ledger2 <- onRemove sda ledger1 ;;
      getReclaimableSpaceFromAction oneDisk ledger2 remove) = Some 80.
Proof.
  split; [|split; [apply countsAsRemoved_spec|split; reflexivity]].
  intros devices ledger Hkeys Hclosed.
  split; [now apply remove_code_pure|].
  intros parent Hnd Hin Hown Hacyclic Honly.
  rewrite remove_code_pure by assumption.
  unfold reclaimedBytesRemove.
  rewrite (@filter_single _ (countsAsRemoved devices ledger) (keys ledger) parent);
    [simpl; unfold usedBytes; f_equal; lia|assumption|assumption|].
  intros device _. rewrite countsAsRemoved_code, andb_true_iff, negb_true_iff.
  split.
  - intros [Hd Hnone]. destruct (Honly device Hd) as [|Hr]; [assumption|].
    exfalso. apply not_true_iff_false in Hnone. apply Hnone.
    apply existsb_exists. exists parent.
    split; [now apply getDeviceAncestors_spec|exact Hown].
  - intros ->. split; [assumption|].
    apply not_true_iff_false. intros H. apply existsb_exists in H.
    destruct H as (a & Ha & Hrem). apply getDeviceAncestors_spec in Ha.
    destruct (Honly a Hrem) as [->|Hr]; [contradiction|].
    apply Hacyclic. eapply reaches_trans; eassumption.
Qed.

Lemma oneDisk_parents x y : reaches (parentsOf oneDisk) x y -> x = "sda1" /\ y = "sda".
Proof.
  assert (H : forall a b, In b (parentsOf oneDisk a) -> a = "sda1" /\ b = "sda").
  { intros a b. unfold parentsOf, oneDisk. simpl.
    destruct (String.eqb a "sda"); simpl; [intros []|].
    destruct (String.eqb_spec a "sda1") as [->|_]; simpl; [|intros []].
    intros [<-|[]]. auto. }
  induction 1 as [a b Hab|a b c Hab _ IH]; [auto|].
  destruct (H a b Hab) as [_ ->]. destruct IH as [IH _]. discriminate IH.
Qed.

Lemma reclaimed_remove_counts_topmost_removed_witness :
  keys bothRemoved = keys oneDisk
  /\ parentsClosed oneDisk = true
  /\ NoDup (keys bothRemoved)
  /\ In "sda" (keys bothRemoved)
  /\ hasAction bothRemoved remove "sda" = true
  /\ ~ reaches (parentsOf oneDisk) "sda" "sda"
  /\ (forall device, hasAction bothRemoved remove device = true ->
                     device = "sda" \/ reaches (parentsOf oneDisk) device "sda")
  /\ getReclaimableSpaceFromAction oneDisk bothRemoved remove
     = Some (reclaimedBytesRemove oneDisk bothRemoved)
  /\ getReclaimableSpaceFromAction oneDisk bothRemoved remove
     = Some (totalBytes oneDisk "sda" - freeBytes oneDisk "sda").
Proof.
  assert (Hnd : NoDup (keys bothRemoved)).
  { simpl. constructor; [intros [H|[]]; discriminate H|].
    constructor; [intros []|constructor]. }
  assert (Hin : In "sda" (keys bothRemoved)) by (simpl; tauto).
  assert (Hacyclic : ~ reaches (parentsOf oneDisk) "sda" "sda").
  { intros H. apply oneDisk_parents in H. destruct H as [H _]. discriminate H. }
  assert (Honly : forall device, hasAction bothRemoved remove device = true ->
                    device = "sda" \/ reaches (parentsOf oneDisk) device "sda").
  { intros device. unfold hasAction, actionsOf, bothRemoved. simpl.
    destruct (String.eqb_spec device "sda") as [->|_]; [now left|].
    destruct (String.eqb_spec device "sda1") as [->|_]; [|discriminate].
    intros _. right. apply reaches_step. now left. }
  split; [reflexivity|]. split; [reflexivity|]. split; [exact Hnd|].
  split; [exact Hin|]. split; [reflexivity|]. split; [exact Hacyclic|].
  split; [exact Honly|]. split.
  - exact (proj1 (proj1 reclaimed_remove_counts_topmost_removed oneDisk bothRemoved
                    eq_refl eq_refl)).
  - exact (proj2 (proj1 reclaimed_remove_counts_topmost_removed oneDisk bothRemoved
                    eq_refl eq_refl) "sda" Hnd Hin eq_refl Hacyclic Honly).
Defined.

(** ** Shrink accounting *)

Lemma last_In_nonempty {A : Type} (xs : list A) (d : A) : xs <> [] -> In (last xs d) xs.
Proof.
  induction xs as [|x rest IH]; intros H; [congruence|].
  destruct rest as [|y rest']; [now left|].
  right. apply IH. discriminate.
Qed.

Lemma last_In {A : Type} (rest : list A) (first : A) : In (last rest first) (first :: rest).
Proof.
  destruct rest as [|x rest']; [now left|].
  right. apply last_In_nonempty. discriminate.
Qed.

Lemma includes_exists wanted actions :
  includes wanted (map Action.type actions) = true
  <-> exists action, In action actions /\ Action.type action = wanted.
Proof.
  unfold includes. rewrite existsb_exists. split.
  - intros (t & Ht & E). apply in_map_iff in Ht. destruct Ht as (a & <- & Ha).
    exists a. split; [assumption|].
    destruct wanted, (Action.type a); simpl in E; congruence.
  - intros (a & Ha & <-). exists (Action.type a).
    split; [now apply in_map|]. now destruct (Action.type a).
Qed.

Lemma no_remove_all_shrink actions :
  includes remove (map Action.type actions) = false ->
  forall action, In action actions -> isShrinkAction action = true.
Proof.
  intros H action Ha. unfold isShrinkAction.
  destruct (Action.type action) eqn:E; [|reflexivity].
  exfalso. apply not_true_iff_false in H. apply H.
  apply includes_exists. eauto.
Qed.

Lemma all_shrink_filter actions :
  (forall action, In action actions -> isShrinkAction action = true) ->
  filter isShrinkAction actions = actions.
Proof.
  induction actions as [|a rest IH]; intros H; simpl; [reflexivity|].
  rewrite (H a (or_introl eq_refl)). f_equal. apply IH. intros b Hb. apply H. now right.
Qed.

Lemma all_shrink_includes actions :
  (forall action, In action actions -> isShrinkAction action = true) ->
  includes shrink (map Action.type actions)
  = match actions with
    | [] => false
    | first :: rest => isShrinkAction (last rest first)
    end.
Proof.
  intros H. destruct actions as [|first rest]; [reflexivity|].
  rewrite (H (last rest first) (last_In rest first)).
  apply includes_exists. exists first. split; [now left|].
  specialize (H first (or_introl eq_refl)). unfold isShrinkAction in H.
  now destruct (Action.type first).
Qed.

Section ShrinkFacts.
Variable devices : Devices.
Variable ledger : Ledger.
Hypothesis same_keys : keys ledger = keys devices.
Hypothesis parents_closed : parentsClosed devices = true.

Lemma shrink_code_pure :
  getReclaimableSpaceFromAction devices ledger shrink
  = Some (sumZ (map (allActionsBytes devices ledger)
                 (filter (hasShrinkBelowNoRemove devices ledger) (keys ledger)))).
Proof.
  unfold getReclaimableSpaceFromAction.
  rewrite (filterM_pure _ (hasShrinkBelowNoRemove devices ledger)).
  - simpl. rewrite (reduceM_sum _ (allActionsBytes devices ledger)); [reflexivity|].
    intros device acc H. apply filter_In in H. destruct H as [H _].
    destruct (key_is_device devices ledger same_keys _ H) as (d & E).
    apply In_keys_lookup in H. destruct H as (actions & Ea).
    unfold addDeviceShrunkSpace, allActionsBytes, actionsOf. rewrite Ea. simpl.
    rewrite (reduceM_sum _ (fun action =>
               totalBytes devices device - toNumber (Action.value action))).
    + reflexivity.
    + intros action acc' _. unfold addShrunkSpace, totalBytes. rewrite E. simpl.
      f_equal. lia.
  - intros device H. unfold hasShrinkBelowNoRemove.
    apply andNotParentRemoved_pure; [assumption|assumption|].
    now apply isDeviceResized_key.
Qed.

Hypothesis no_mix : unmixed ledger = true.

Lemma actionsOf_unmixed device :
  hasAction ledger remove device = true -> hasAction ledger shrink device = false.
Proof.
  unfold hasAction, actionsOf. destruct (lookup device ledger) as [actions|] eqn:E.
  - apply lookup_In in E. unfold unmixed in no_mix.
    rewrite forallb_forall in no_mix. specialize (no_mix _ E). simpl in no_mix.
    intros H. rewrite H in no_mix. simpl in no_mix.
    now apply negb_true_iff in no_mix.
  - discriminate.
Qed.

Lemma countsAsShrunk_code device :
  hasShrinkBelowNoRemove devices ledger device = countsAsShrunk devices ledger device.
Proof.
  unfold hasShrinkBelowNoRemove, countsAsShrunk, isEffectivelyRemoved.
  destruct (hasAction ledger remove device) eqn:Hown.
  - rewrite (actionsOf_unmixed _ Hown). simpl. now rewrite andb_false_r.
  - simpl. f_equal. unfold hasAction, mostRecentIsShrink, mostRecent.
    unfold hasAction in Hown.
    rewrite (@all_shrink_includes _ (@no_remove_all_shrink _ Hown)).
    now destruct (actionsOf ledger device).
Qed.

Lemma shrunkBytes_code device :
  countsAsShrunk devices ledger device = true ->
  allActionsBytes devices ledger device = shrunkBytes devices ledger device.
Proof.
  unfold countsAsShrunk, isEffectivelyRemoved. intros H.
  apply andb_true_iff in H. destruct H as [_ H].
  apply negb_true_iff, orb_false_iff in H. destruct H as [Hown _].
  unfold allActionsBytes, shrunkBytes. unfold hasAction in Hown.
  now rewrite (@all_shrink_filter _ (@no_remove_all_shrink _ Hown)).
Qed.

Lemma shrink_code_spec :
  getReclaimableSpaceFromAction devices ledger shrink
  = Some (reclaimedBytesShrink devices ledger).
Proof.
  rewrite shrink_code_pure. unfold reclaimedBytesShrink. f_equal.
  apply filter_map_ext.
  - intros device _. apply countsAsShrunk_code.
  - intros device _. apply shrunkBytes_code.
Qed.
End ShrinkFacts.

(** C2 (amended).  On a ledger in which no sequence holds both a remove
    and a shrink, [getReclaimableSpaceFromAction] for "shrink" returns
    the sum, over the devices whose most recent action is a shrink and
    that are not effectively removed, of total minus value over every
    shrink action of the sequence.  On every ledger, a device with an
    effectively removed ancestor passes neither filter, so it adds
    nothing to either sum.  Scenario: sda1 (total 80) shrunk to 50 gives
    30, and 0 after the undo. *)
Theorem reclaimed_shrink_on_unmixed_ledgers :
  (forall devices ledger,
     keys ledger = keys devices ->
     parentsClosed devices = true ->
     (unmixed ledger = true ->
      getReclaimableSpaceFromAction devices ledger shrink
      = Some (reclaimedBytesShrink devices ledger))
     /\ forall device,
         In device (keys ledger) ->
         ancestorRemoved devices ledger device = true ->
         andNotParentRemoved devices ledger (isDeviceRemoved ledger) device = Some false
         /\ andNotParentRemoved devices ledger (isDeviceResized ledger) device = Some false)
  /\ (forall devices ledger device,
         (countsAsShrunk devices ledger device = true
          <-> mostRecentIsShrink ledger device = true
              /\ ~ effectivelyRemoved devices ledger device)
         /\ (ancestorRemoved devices ledger device = true
             <-> exists ancestor,
                   reaches (parentsOf devices) device ancestor
                   /\ effectivelyRemoved devices ledger ancestor))
  /\ (ledger1 <- onShrink sda1 50 (initialUnappliedActions oneDisk) ;;
      getReclaimableSpaceFromAction oneDisk ledger1 shrink) = Some 30
  /\ (ledger1 <- onShrink sda1 50 (initialUnappliedActions oneDisk) ;;
      ledger2 <- onUndo sda1 ledger1 ;;
      getReclaimableSpaceFromAction oneDisk ledger2 shrink) = Some 0.
Proof.
  split; [|split; [|split; reflexivity]];
    [|intros devices ledger device; split;
      [apply countsAsShrunk_spec|apply ancestorRemoved_spec]].
  intros devices ledger Hkeys Hclosed. split.
  - intros Hmix. now apply shrink_code_spec.
  - intros device Hin Habove.
    rewrite <- ancestor_has_remove_transitive in Habove.
    split.
    + rewrite (@andNotParentRemoved_pure devices ledger Hkeys Hclosed _
                 (hasAction ledger remove) device (isDeviceRemoved_key _ _ Hin)).
      rewrite Habove. now rewrite andb_false_r.
    + rewrite (@andNotParentRemoved_pure devices ledger Hkeys Hclosed _
                 (hasAction ledger shrink) device (isDeviceResized_key _ _ Hin)).
      rewrite Habove. now rewrite andb_false_r.
Qed.

Lemma reclaimed_shrink_on_unmixed_ledgers_witness :
  keys shrunkTwice = keys oneDisk
  /\ parentsClosed oneDisk = true
  /\ unmixed shrunkTwice = true
  /\ getReclaimableSpaceFromAction oneDisk shrunkTwice shrink
     = Some (reclaimedBytesShrink oneDisk shrunkTwice)
  /\ reclaimedBytesShrink oneDisk shrunkTwice = 80
  /\ In "sda1" (keys bothRemoved)
  /\ ancestorRemoved oneDisk bothRemoved "sda1" = true
  /\ andNotParentRemoved oneDisk bothRemoved (isDeviceRemoved bothRemoved) "sda1"
     = Some false.
Proof.
  assert (Hin : In "sda1" (keys bothRemoved)) by (simpl; tauto).
  split; [reflexivity|]. split; [reflexivity|]. split; [reflexivity|].
  split; [|split; [reflexivity|split; [exact Hin|split; [reflexivity|]]]].
  - exact (proj1 (proj1 reclaimed_shrink_on_unmixed_ledgers oneDisk shrunkTwice
                    eq_refl eq_refl) eq_refl).
  - exact (proj1 (proj2 (proj1 reclaimed_shrink_on_unmixed_ledgers oneDisk bothRemoved
                           eq_refl eq_refl) "sda1" Hin eq_refl)).
Defined.

(** C2 as stated fails where a sequence holds a shrink and a remove:
    the source adds up 80 - 50 and 80 - "" for sda1, although the device
    is removed and its most recent action is no shrink. *)
Lemma reclaimed_shrink_counts_removed_device :
  getReclaimableSpaceFromAction oneDisk shrunkThenRemoved shrink = Some 110
  /\ reclaimedBytesShrink oneDisk shrunkThenRemoved = 0
  /\ getReclaimableSpaceFromAction oneDisk shrunkThenRemoved shrink
     <> Some (reclaimedBytesShrink oneDisk shrunkThenRemoved).
Proof.
  split; [reflexivity|]. split; [reflexivity|]. discriminate.
Qed.

(** ** The undo control *)

Lemma isSome_find_includes wanted actions :
  isSome (find (fun action => ActionType_eqb (Action.type action) wanted) actions)
  = includes wanted (map Action.type actions).
Proof.
  induction actions as [|a rest IH]; simpl; [reflexivity|].
  destruct (Action.type a), wanted; simpl; auto.
Qed.

Lemma getDeviceActionOfType_key ledger device wanted :
  In device (keys ledger) ->
  (found <- getDeviceActionOfType device wanted ledger ;; Some (isSome found))
  = Some (hasAction ledger wanted device).
Proof.
  intros H. apply In_keys_lookup in H. destruct H as (actions & E).
  unfold getDeviceActionOfType, hasAction, actionsOf. rewrite E. simpl.
  now rewrite isSome_find_includes.
Qed.

Lemma parentHasRemove_pure device ledger :
  incl (Device.parents device) (keys ledger) ->
  parentHasRemove device ledger
  = Some (existsb (hasAction ledger remove) (Device.parents device)).
Proof.
  intros H. unfold parentHasRemove. apply someM_pure.
  intros parent Hp. apply getDeviceActionOfType_key. now apply H.
Qed.

Lemma existsb_same_elements {A : Type} (q : A -> bool) xs ys :
  (forall x, In x xs <-> In x ys) -> existsb q xs = existsb q ys.
Proof.
  intros H. apply eq_true_iff_eq. rewrite !existsb_exists.
  split; intros (x & Hx & Hq); exists x; (split; [now apply H|exact Hq]).
Qed.

Lemma hasAnyAction_spec devices ledger device :
  hasAnyAction devices ledger device = true
  <-> actionsOf ledger device <> []
      /\ ~ exists ancestor, reaches (parentsOf devices) device ancestor
                            /\ effectivelyRemoved devices ledger ancestor.
Proof.
  unfold hasAnyAction.
  rewrite andb_true_iff, !negb_true_iff, <- (ancestorRemoved_spec devices ledger device).
  rewrite (not_true_iff_false (ancestorRemoved devices ledger device)).
  split; intros [Hlen Hnone]; (split; [|assumption]).
  - intros E. rewrite E in Hlen. discriminate.
  - destruct (actionsOf ledger device); [contradiction|reflexivity].
Qed.

(** What [hasUnappliedActions] computes, which decides whether the
    undo button of a row is rendered: it is true exactly when the
    device's own sequence is not empty and no parent of the device holds
    a remove.  Where the parents of the device have no parents
    themselves, this is the [hasAnyAction] of the specification: the
    sequence is not empty and no ancestor is effectively removed. *)
Theorem undo_offered_unless_parent_removed :
  forall device ledger,
    In (Device.name device) (keys ledger) ->
    incl (Device.parents device) (keys ledger) ->
    hasUnappliedActions device ledger
    = Some (negb (existsb (hasAction ledger remove) (Device.parents device))
            && negb (List.length (actionsOf ledger (Device.name device)) =? 0)%nat)
    /\ forall devices,
        lookup (Device.name device) devices = Some device ->
        (forall parent, In parent (Device.parents device) ->
                        parentsOf devices parent = []) ->
        hasUnappliedActions device ledger
        = Some (hasAnyAction devices ledger (Device.name device))
        /\ (hasAnyAction devices ledger (Device.name device) = true
            <-> actionsOf ledger (Device.name device) <> []
                /\ ~ exists ancestor,
                      reaches (parentsOf devices) (Device.name device) ancestor
                      /\ effectivelyRemoved devices ledger ancestor).
Proof.
  intros device ledger Hname Hparents.
  assert (E : hasUnappliedActions device ledger
              = Some (negb (existsb (hasAction ledger remove) (Device.parents device))
                      && negb (List.length (actionsOf ledger (Device.name device)) =? 0)%nat)).
  { unfold hasUnappliedActions. rewrite parentHasRemove_pure by assumption. simpl.
    destruct (existsb _ _); [reflexivity|].
    apply In_keys_lookup in Hname. destruct Hname as (actions & Ea).
    unfold actionsOf. rewrite Ea. simpl. now destruct actions. }
  split; [exact E|].
  intros devices Hdev Hflat. split; [|apply hasAnyAction_spec].
  rewrite E. f_equal. unfold hasAnyAction.
  rewrite andb_comm. f_equal. f_equal.
  rewrite <- ancestor_has_remove_transitive.
  apply existsb_same_elements. intros a.
  rewrite getDeviceAncestors_unfold. unfold parentsOf at 1. rewrite Hdev. split.
  - intros H. exists a. auto.
  - intros (p & Hp & [->|Ha]); [assumption|].
    apply getDeviceAncestors_unfold in Ha. destruct Ha as (q & Hq & _).
    rewrite (Hflat p Hp) in Hq. destruct Hq.
Qed.

Lemma undo_offered_unless_parent_removed_witness :
  In (Device.name sda1) (keys bothRemoved)
  /\ incl (Device.parents sda1) (keys bothRemoved)
  /\ lookup (Device.name sda1) oneDisk = Some sda1
  /\ (forall parent, In parent (Device.parents sda1) -> parentsOf oneDisk parent = [])
  /\ hasUnappliedActions sda1 bothRemoved = Some false
  /\ hasUnappliedActions sda1 bothRemoved = Some (hasAnyAction oneDisk bothRemoved "sda1").
Proof.
  assert (Hname : In (Device.name sda1) (keys bothRemoved)) by (simpl; tauto).
  assert (Hparents : incl (Device.parents sda1) (keys bothRemoved)).
  { intros p [<-|[]]. simpl. tauto. }
  assert (Hflat : forall parent, In parent (Device.parents sda1) ->
                                 parentsOf oneDisk parent = []).
  { intros p [<-|[]]. reflexivity. }
  split; [exact Hname|]. split; [exact Hparents|].
  split; [reflexivity|]. split; [exact Hflat|]. split.
  - exact (proj1 (undo_offered_unless_parent_removed sda1 bothRemoved Hname Hparents)).
  - exact (proj1 (proj2 (undo_offered_unless_parent_removed sda1 bothRemoved
                           Hname Hparents) oneDisk eq_refl Hflat)).
Defined.

(** The session that shrinks the partition of the array and then
    removes the disk below the array. *)
Lemma raidRows_built : getRows 3 raidDisks raidSelection = Some raidRows.
Proof. reflexivity. Qed.

Lemma diskRemovedUnderArray_reachable :
  reachable raidDisks raidRows diskRemovedUnderArray.
Proof.
  eapply reachable_click.
  - eapply reachable_click; [apply reachable_initial|].
    eapply (@step_shrink _ (Row.Build "md0p1" md0p1 1) (Some true) _ 20);
      [simpl; tauto|reflexivity|reflexivity|reflexivity|reflexivity].
  - eapply (@step_remove _ (Row.Build "sdb" sdb 0) (Some true));
      [simpl; tauto|reflexivity|reflexivity|reflexivity].
Qed.

(** C9.  The undo button is not hidden below a removed ancestor that
    is no direct parent: [parentHasRemove] of [DeviceActions] reads
    [device.parents.v] only, where [isDeviceParentRemoved] of the two
    sums reads every ancestor.  With the array md0 selected next to the
    disk sdb it sits on, the partition md0p1 has a row at level 1.
    After its shrink to 20 and the removal of sdb, that row still shows
    the new size and the undo button, although the row of md0 is locked,
    the sums hold md0p1 to lie below a remove and count nothing for its
    shrink, and the [hasAnyAction] of the specification is false. *)
Lemma undo_offered_below_removed_grandparent :
  getRows 3 raidDisks raidSelection = Some raidRows
  /\ In (Row.Build "md0p1" md0p1 1) raidRows
  /\ reachable raidDisks raidRows diskRemovedUnderArray
  /\ DeviceActions (Some true) md0p1 1 diskRemovedUnderArray
     = Some (Some (Controls.Build (ShrinkText (JsNum 20)) DeleteNothing true))
  /\ hasUnappliedActions md0p1 diskRemovedUnderArray = Some true
  /\ DeviceActions (Some true) md0 0 diskRemovedUnderArray
     = Some (Some (Controls.Build ShrinkNothing DeleteText false))
  /\ isDeviceParentRemoved raidDisks diskRemovedUnderArray "md0p1" = Some true
  /\ getReclaimableSpaceFromAction raidDisks diskRemovedUnderArray shrink = Some 0
  /\ ancestorRemoved raidDisks diskRemovedUnderArray "md0p1" = true
  /\ hasAnyAction raidDisks diskRemovedUnderArray "md0p1" = false.
Proof.
  split; [exact raidRows_built|]. split; [simpl; tauto|].
  split; [exact diskRemovedUnderArray_reachable|].
  repeat split; reflexivity.
Qed.

(** ** The footer *)

Lemma Status_eqb_warning status : Status_eqb status warning = true <-> status = warning.
Proof. destruct status; simpl; split; congruence. Qed.

(** C3 (amended).  On a well-formed snapshot and ledger the footer is
    rendered, its status is "warning" exactly when the free space of the
    selection plus the space reclaimed by removes and by shrinks is
    below the required size, and "success" otherwise (so also when both
    are equal); the "Reclaim space" button is enabled exactly when the
    status is not "warning" and the form is not disabled.  Scenario:
    required 500, free 100, reclaimed 350 gives "warning"; a shrink that
    adds 60 gives "success". *)
Theorem footer_status_and_reclaim_button :
  (forall isFormDisabled devices diskFreeSpace requiredSize ledger,
     keys ledger = keys devices ->
     parentsClosed devices = true ->
     exists footer toDelete toShrink,
       ReclaimFooter isFormDisabled devices diskFreeSpace requiredSize ledger = Some footer
       /\ getReclaimableSpaceFromAction devices ledger remove = Some toDelete
       /\ getReclaimableSpaceFromAction devices ledger shrink = Some toShrink
       /\ (Footer.status footer = warning
           <-> diskFreeSpace + (toDelete + toShrink) < requiredSize)
       /\ (Footer.status footer = success
           <-> requiredSize <= diskFreeSpace + (toDelete + toShrink))
       /\ (Footer.reclaimIsDisabled footer = false
           <-> Footer.status footer <> warning /\ isFormDisabled = false))
  /\ option_map Footer.status (ReclaimFooter false twoPartitions 100 500 partitionRemoved)
     = Some warning
  /\ option_map Footer.availableFreeSpace
       (ReclaimFooter false twoPartitions 100 500 partitionRemoved) = Some 450
  /\ option_map Footer.status
       (ReclaimFooter false twoPartitions 100 500 partitionRemovedAndShrunk)
     = Some success
  /\ option_map Footer.availableFreeSpace
       (ReclaimFooter false twoPartitions 100 500 partitionRemovedAndShrunk) = Some 510.
Proof.
  split; [|repeat split; reflexivity].
  intros isFormDisabled devices free required ledger Hkeys Hclosed.
  unfold ReclaimFooter.
  rewrite (remove_code_pure devices ledger Hkeys Hclosed).
  rewrite (shrink_code_pure devices ledger Hkeys Hclosed). simpl.
  eexists. eexists. eexists.
  split; [reflexivity|]. split; [reflexivity|]. split; [reflexivity|]. simpl.
  destruct (Z.ltb_spec (free + (reclaimedBytesRemove devices ledger
              + sumZ (map (allActionsBytes devices ledger)
                      (filter (hasShrinkBelowNoRemove devices ledger) (keys ledger)))))
              required) as [Hlt|Hge]; simpl.
  - split; [tauto|]. split; [split; [discriminate|lia]|].
    split; [discriminate|]. intros [H _]. congruence.
  - split; [split; [discriminate|lia]|]. split; [tauto|].
    split; [intros ->; split; [discriminate|reflexivity]|tauto].
Qed.

Lemma footer_status_and_reclaim_button_witness :
  keys partitionRemoved = keys twoPartitions
  /\ parentsClosed twoPartitions = true
  /\ exists footer,
       ReclaimFooter false twoPartitions 100 500 partitionRemoved = Some footer
       /\ (Footer.reclaimIsDisabled footer = false
           <-> Footer.status footer <> warning /\ false = false).
Proof.
  split; [reflexivity|]. split; [reflexivity|].
  destruct (proj1 footer_status_and_reclaim_button false twoPartitions 100 500
              partitionRemoved eq_refl eq_refl)
    as (footer & toDelete & toShrink & Hfooter & _ & _ & _ & _ & Hbutton).
  exists footer. split; [exact Hfooter|exact Hbutton].
Defined.

(** C3 as stated fails while the form is disabled: nothing is staged,
    100 bytes are free and 50 required, so the status is "success", and
    the button is disabled all the same. *)
Lemma reclaim_button_disabled_with_form :
  exists footer,
    ReclaimFooter true oneDisk 100 50 (initialUnappliedActions oneDisk) = Some footer
    /\ Footer.status footer = success
    /\ Footer.reclaimIsDisabled footer = true
    /\ ~ (Footer.reclaimIsDisabled footer = false <-> Footer.status footer <> warning).
Proof.
  eexists. split; [reflexivity|]. simpl. split; [reflexivity|]. split; [reflexivity|].
  intros [_ H]. discriminate H. discriminate.
Qed.

(** ** The shrink popover *)

Local Open Scope Q_scope.

Lemma round_nearest x :
  x - (1 # 2) < inject_Z (round x) /\ inject_Z (round x) <= x + (1 # 2).
Proof.
  unfold round. split; [|apply Qfloor_le].
  pose proof (Qlt_floor (x + (1 # 2))) as H.
  rewrite inject_Z_plus in H. change (inject_Z 1) with 1 in H.
  set (f := inject_Z (Qfloor (x + (1 # 2)))) in *. clearbody f. lra.
Qed.

Lemma round_between lo hi x :
  inject_Z lo <= x -> x <= inject_Z hi -> (lo <= round x <= hi)%Z.
Proof.
  intros Hlo Hhi. destruct (round_nearest x) as [Hgt Hle]. split.
  - assert (H : inject_Z (lo - 1) < inject_Z (round x)).
    { replace (lo - 1)%Z with (lo + -1)%Z by lia.
      rewrite inject_Z_plus. change (inject_Z (-1)) with (-1 # 1).
      set (l := inject_Z lo) in *. set (r := inject_Z (round x)) in *.
      clearbody l r. lra. }
    rewrite <- Zlt_Qlt in H. lia.
  - assert (H : inject_Z (round x) < inject_Z (hi + 1)).
    { rewrite inject_Z_plus. change (inject_Z 1) with 1.
      set (h := inject_Z hi) in *. set (r := inject_Z (round x)) in *.
      clearbody h r. lra. }
    rewrite <- Zlt_Qlt in H. lia.
Qed.

(** What holds of the typed input: the value never exceeds the size of
    the device, and a typed size that is not negative stays in range. *)
Lemma typed_input_upper_bound total unit slider typed value :
  onChange total unit slider (Some typed) value <= inject_Z total.
Proof. simpl. apply Q.le_min_l. Qed.

Lemma typed_input_in_range total unit slider typed value :
  (0 <= total)%Z -> 0 <= unit -> 0 <= typed ->
  0 <= onChange total unit slider (Some typed) value <= inject_Z total.
Proof.
  intros Htotal Hunit Htyped. split; [|apply typed_input_upper_bound].
  simpl. apply Q.min_glb.
  - change 0 with (inject_Z 0). now rewrite <- Zle_Qle.
  - now apply Qmult_le_0_compat.
Qed.

(** The slider: the value is [Math.round(percent / 100 * total)], the
    nearest byte count, and stays in range for a percentage in range. *)
Lemma slider_input_rounds total unit percent value :
  onChange total unit (Some percent) None value
  = inject_Z (round ((percent / 100) * inject_Z total))
  /\ ((0 <= total)%Z -> 0 <= percent -> percent <= 100 ->
      0 <= onChange total unit (Some percent) None value <= inject_Z total).
Proof.
  split; [reflexivity|]. intros Htotal Hlo Hhi. simpl.
  assert (Ht : 0 <= inject_Z total)
    by (change 0 with (inject_Z 0); now rewrite <- Zle_Qle).
  assert (H : (0 <= round (percent / 100 * inject_Z total) <= total)%Z).
  { apply round_between.
    - change (inject_Z 0) with 0. apply Qmult_le_0_compat; [|assumption].
      apply Qle_shift_div_l; [reflexivity|]. now rewrite Qmult_0_l.
    - setoid_replace (inject_Z total) with (1 * inject_Z total) at 2 by ring.
      apply Qmult_le_compat_r; [|assumption].
      apply Qle_shift_div_r; [reflexivity|]. now rewrite Qmult_1_l. }
  change 0 with (inject_Z 0). rewrite <- !Zle_Qle. exact H.
Qed.

(** "Resize" is enabled for every value but [0] and the size of the
    device; for a value in range this is the open interval. *)
Lemma resize_enabled total value :
  (resizeIsDisabled total value = false
   <-> ~ value == 0 /\ ~ value == inject_Z total)
  /\ (0 <= value -> value <= inject_Z total ->
      (resizeIsDisabled total value = false <-> 0 < value /\ value < inject_Z total)).
Proof.
  assert (E : resizeIsDisabled total value = false
              <-> ~ value == 0 /\ ~ value == inject_Z total).
  { unfold resizeIsDisabled. rewrite orb_false_iff.
    rewrite <- !not_true_iff_false, !Qeq_bool_iff. tauto. }
  split; [exact E|]. intros Hlo Hhi. rewrite E. split.
  - intros [H0 Ht]. split.
    + apply Qle_lt_or_eq in Hlo. destruct Hlo as [|Heq]; [assumption|].
      exfalso. apply H0. now symmetry.
    + apply Qle_lt_or_eq in Hhi. destruct Hhi as [|Heq]; [assumption|contradiction].
  - intros [H0 Ht]. split; intros Heq; rewrite Heq in *.
    + now apply (Qlt_irrefl 0).
    + now apply (Qlt_irrefl (inject_Z total)).
Qed.

(** C4, where the source departs from it: a negative size typed into the
    input of the slider is not raised to [0].  For a device of 100
    bytes and the unit B, the typed value -5 is resolved to -5, and
    "Resize" is enabled for it. *)
Theorem typed_negative_size_not_clamped :
  onChange 100 1 None (Some (-5 # 1)) 100 == -5 # 1
  /\ ~ 0 <= onChange 100 1 None (Some (-5 # 1)) 100
  /\ resizeIsDisabled 100 (onChange 100 1 None (Some (-5 # 1)) 100) = false.
Proof.
  split; [reflexivity|]. split; [|reflexivity].
  intros H. vm_compute in H. now apply H.
Qed.

Local Close Scope Q_scope.

(** ** Append and undo *)

Lemma onAction_key device action value ledger :
  In (Device.name device) (keys ledger) ->
  onAction device action value ledger
  = Some (update (Device.name device) (push (Action.Build action value)) ledger).
Proof.
  intros H. apply In_keys_lookup in H. destruct H as (actions & E).
  unfold onAction. now rewrite E.
Qed.

Lemma onAction_Some device action value ledger ledger' :
  onAction device action value ledger = Some ledger' ->
  In (Device.name device) (keys ledger)
  /\ ledger' = update (Device.name device) (push (Action.Build action value)) ledger.
Proof.
  unfold onAction. destruct (lookup (Device.name device) ledger) eqn:E; simpl.
  - intros [= <-]. split; [eapply lookup_In_keys; eassumption|reflexivity].
  - discriminate.
Qed.

Lemma onUndo_Some device ledger ledger' :
  onUndo device ledger = Some ledger' ->
  In (Device.name device) (keys ledger)
  /\ ledger' = update (Device.name device) pop ledger.
Proof.
  unfold onUndo. destruct (lookup (Device.name device) ledger) eqn:E; simpl.
  - intros [= <-]. split; [eapply lookup_In_keys; eassumption|reflexivity].
  - discriminate.
Qed.

(** C5 (amended).  [onUndo] never fails for a device that is a key: the
    sequence of the device loses its last action, an empty sequence
    stays empty and the ledger is then unchanged, and no other sequence
    is touched. *)
Theorem undo_pops_last_or_does_nothing :
  forall device ledger actions,
    lookup (Device.name device) ledger = Some actions ->
    exists ledger',
      onUndo device ledger = Some ledger'
      /\ lookup (Device.name device) ledger' = Some (removelast actions)
      /\ (forall (earlier : list Action.t) latest,
             actions = (earlier ++ [latest])%list ->
             lookup (Device.name device) ledger' = Some earlier)
      /\ (actions = [] -> ledger' = ledger)
      /\ (forall other, other <> Device.name device ->
                        lookup other ledger' = lookup other ledger).
Proof.
  intros device ledger actions E. unfold onUndo. rewrite E. simpl.
  eexists. split; [reflexivity|].
  assert (L : lookup (Device.name device) (update (Device.name device) pop ledger)
              = Some (removelast actions)).
  { rewrite lookup_update_same, E. reflexivity. }
  split; [exact L|]. split; [|split].
  - intros earlier latest ->. rewrite L. now rewrite removelast_last.
  - intros ->. apply update_unchanged. intros v Hv.
    rewrite E in Hv. injection Hv as <-. reflexivity.
  - intros other Hne. now apply lookup_update_other.
Qed.

Lemma undo_pops_last_or_does_nothing_witness :
  lookup (Device.name sda1) shrunkTwice
  = Some [staged shrink (JsNum 50); staged shrink (JsNum 30)]
  /\ exists ledger',
       onUndo sda1 shrunkTwice = Some ledger'
       /\ lookup (Device.name sda1) ledger' = Some [staged shrink (JsNum 50)].
Proof.
  split; [reflexivity|].
  destruct (undo_pops_last_or_does_nothing sda1 shrunkTwice eq_refl)
    as (ledger' & Hundo & Hlast & _).
  exists ledger'. split; [exact Hundo|exact Hlast].
Defined.

(** C5 as stated fails on an empty sequence: [pop] on an empty array
    raises nothing, and [onUndo] returns the ledger as it was. *)
Lemma undo_on_empty_sequence_is_silent :
  lookup (Device.name sda) (initialUnappliedActions oneDisk) = Some []
  /\ onUndo sda (initialUnappliedActions oneDisk) = Some (initialUnappliedActions oneDisk)
  /\ onUndo sda (initialUnappliedActions oneDisk) <> None.
Proof. split; [reflexivity|]. split; [reflexivity|discriminate]. Qed.

(** C6.  For every ledger, every device that is a key and every action,
    [onAction] followed by [onUndo] gives back the ledger itself, hence
    the same effective removal, effective shrink and shrink target for
    every device and the same two sums of reclaimed bytes. *)
Theorem undo_after_append_restores_state :
  forall device action value ledger,
    In (Device.name device) (keys ledger) ->
    exists appended restored,
      onAction device action value ledger = Some appended
      /\ onUndo device appended = Some restored
      /\ restored = ledger
      /\ forall devices,
          (forall d,
              isEffectivelyRemoved devices restored d = isEffectivelyRemoved devices ledger d
              /\ isEffectivelyShrunk devices restored d = isEffectivelyShrunk devices ledger d
              /\ currentShrinkTarget devices restored d = currentShrinkTarget devices ledger d)
          /\ getReclaimableSpaceFromAction devices restored remove
             = getReclaimableSpaceFromAction devices ledger remove
          /\ getReclaimableSpaceFromAction devices restored shrink
             = getReclaimableSpaceFromAction devices ledger shrink.
Proof.
  intros device action value ledger Hkey.
  assert (Hback : update (Device.name device) pop
                    (update (Device.name device) (push (Action.Build action value)) ledger)
                  = ledger).
  { rewrite update_update. apply update_unchanged. intros v _. apply pop_push. }
  exists (update (Device.name device) (push (Action.Build action value)) ledger), ledger.
  split; [now apply onAction_key|]. split.
  - unfold onUndo. rewrite lookup_update_same.
    apply In_keys_lookup in Hkey. destruct Hkey as (actions & E). rewrite E. simpl.
    now rewrite Hback.
  - split; [reflexivity|]. intros devices. repeat split.
Qed.

Lemma undo_after_append_restores_state_witness :
  In (Device.name sda1) (keys bothRemoved)
  /\ exists appended,
       onAction sda1 shrink (JsNum 50) bothRemoved = Some appended
       /\ onUndo sda1 appended = Some bothRemoved.
Proof.
  assert (Hkey : In (Device.name sda1) (keys bothRemoved)) by (simpl; tauto).
  split; [exact Hkey|].
  destruct (undo_after_append_restores_state sda1 shrink (JsNum 50) bothRemoved Hkey)
    as (appended & restored & Happend & Hundo & -> & _).
  exists appended. split; [exact Happend|exact Hundo].
Defined.

(** ** Confirmation *)

Section OnReclaimFacts.
Variable Remote : Type.
Variable Payload : Type.
Variable removeDevice : string -> Remote -> Remote * option Payload.
Variable shrinkDevice : string -> JsValue -> Remote -> Remote * option Payload.

Abbreviation submit' := (submit removeDevice shrinkDevice).
Abbreviation forCalls' := (forCalls removeDevice shrinkDevice).

Lemma forActions_flat device actions : forall w : World Remote,
  forActions removeDevice shrinkDevice device actions w
  = forCalls' (map (fun action => (device, action)) actions) w.
Proof.
  induction actions as [|action rest IH]; intros w; simpl; [reflexivity|].
  destruct (submit' (toCall device action) w) as [w' [error|]]; [reflexivity|apply IH].
Qed.

Lemma forCalls_app items more : forall w : World Remote,
  forCalls' (items ++ more) w
  = match forCalls' items w with
    | (w', Some failure) => (w', Some failure)
    | (w', None) => forCalls' more w'
    end.
Proof.
  induction items as [|[device action] rest IH]; intros w; simpl.
  - now destruct (forCalls' more w) as [w' [failure|]].
  - destruct (submit' (toCall device action) w) as [w' [error|]]; [reflexivity|apply IH].
Qed.

Lemma forEntries_flat ledger : forall w : World Remote,
  forEntries removeDevice shrinkDevice ledger w = forCalls' (stagedCalls ledger) w.
Proof.
  induction ledger as [|[device actions] rest IH]; intros w; simpl; [reflexivity|].
  rewrite forCalls_app, forActions_flat.
  destruct (forCalls' _ w) as [w' [failure|]]; [reflexivity|apply IH].
Qed.

(** *** The source against the executor of the specification *)

Abbreviation perform' := (perform removeDevice shrinkDevice).
Abbreviation performAll' := (performAll removeDevice shrinkDevice).
Abbreviation allSucceed' := (allSucceed removeDevice shrinkDevice).

Lemma submit_perform item (w : World Remote) :
  submit' (toCall (fst item) (snd item)) w
  = ({| remote := fst (perform' item (remote w));
        received := received w ++ [request item] |},
     snd (perform' item (remote w))).
Proof.
  destruct item as [device [[|] value]]; unfold submit, toCall; simpl.
  - now destruct (removeDevice device (remote w)).
  - now destruct (shrinkDevice device value (remote w)).
Qed.

Lemma toDialogError_message item (error : Payload) :
  toDialogError (fst item) (snd item) error
  = {| payload := error; text := message item |}.
Proof. now destruct item as [device [[|] value]]. Qed.

(** A run of the loop of the source, told in terms of the executor: the
    requests of a prefix [sent] of the items went out, the executor was
    taken through them in order, and either all of them succeeded and
    nothing is pending, or the last of them was the first to fail. *)
Lemma forCalls_performs items : forall w : World Remote,
  exists sent pending,
    items = sent ++ pending
    /\ received (fst (forCalls' items w)) = received w ++ map request sent
    /\ remote (fst (forCalls' items w)) = performAll' sent (remote w)
    /\ match snd (forCalls' items w) with
       | None => pending = [] /\ allSucceed' sent (remote w)
       | Some failure =>
           exists accepted item error,
             sent = accepted ++ [item]
             /\ allSucceed' accepted (remote w)
             /\ snd (perform' item (performAll' accepted (remote w))) = Some error
             /\ failure = {| payload := error; text := message item |}
       end.
Proof.
  induction items as [|[device action] rest IH]; intros w.
  - exists [], []. simpl. rewrite app_nil_r. auto.
  - cbn [forCalls].
    pose proof (submit_perform (device, action) w) as E. cbn [fst snd] in E.
    rewrite E. clear E.
    set (item := (device, action)) in *.
    destruct (snd (perform' item (remote w))) as [error|] eqn:Hanswer.
    + exists [item], rest. cbn [fst snd remote received map app].
      split; [reflexivity|]. split; [reflexivity|]. split; [reflexivity|].
      exists [], item, error. cbn [app allSucceed performAll].
      split; [reflexivity|]. split; [exact I|]. split; [exact Hanswer|].
      exact (toDialogError_message item error).
    + destruct (IH {| remote := fst (perform' item (remote w));
                      received := received w ++ [request item] |})
        as (sent & pending & Hsplit & Hlog & Hremote & Hresult).
      cbn [remote received] in Hlog, Hremote, Hresult.
      exists (item :: sent), pending.
      split; [cbn [app]; now rewrite Hsplit|].
      split; [rewrite Hlog, <- app_assoc; reflexivity|].
      split; [exact Hremote|].
      destruct (snd (forCalls' rest _)) as [failure|].
      * destruct Hresult as (accepted & last & error & Hsent & Hacc & Hrej & Hfail).
        exists (item :: accepted), last, error.
        split; [cbn [app]; now rewrite Hsent|].
        split; [cbn [allSucceed]; auto|]. auto.
      * destruct Hresult as [Hpending Hacc]. cbn [allSucceed]. auto.
Qed.

(** The requests of the same prefix go out from any two states of an
    executor whose answers do not depend on its state. *)
Lemma forCalls_same_prefix items :
  answersFixed removeDevice shrinkDevice ->
  forall w v : World Remote,
  exists sent pending,
    items = sent ++ pending
    /\ received (fst (forCalls' items w)) = received w ++ map request sent
    /\ received (fst (forCalls' items v)) = received v ++ map request sent
    /\ remote (fst (forCalls' items w)) = performAll' sent (remote w)
    /\ remote (fst (forCalls' items v)) = performAll' sent (remote v).
Proof.
  intros Hfixed. induction items as [|[device action] rest IH]; intros w v.
  - exists [], []. simpl. rewrite !app_nil_r. auto.
  - cbn [forCalls].
    pose proof (submit_perform (device, action) w) as Ew. cbn [fst snd] in Ew.
    pose proof (submit_perform (device, action) v) as Ev. cbn [fst snd] in Ev.
    rewrite Ew, Ev. clear Ew Ev.
    set (item := (device, action)) in *.
    rewrite (Hfixed item (remote v) (remote w)).
    destruct (snd (perform' item (remote w))) as [error|].
    + exists [item], rest. cbn [fst snd remote received map app performAll]. auto.
    + destruct (IH {| remote := fst (perform' item (remote w));
                      received := received w ++ [request item] |}
                   {| remote := fst (perform' item (remote v));
                      received := received v ++ [request item] |})
        as (sent & pending & Hsplit & Hlogw & Hlogv & Hremw & Hremv).
      cbn [remote received] in Hlogw, Hlogv, Hremw, Hremv.
      exists (item :: sent), pending.
      split; [cbn [app]; now rewrite Hsplit|].
      split; [rewrite Hlogw, <- app_assoc; reflexivity|].
      split; [rewrite Hlogv, <- app_assoc; reflexivity|].
      auto.
Qed.

(** C7.  [onReclaim] takes the staged actions in the order of
    [Object.entries] and, for one device, in the order they were pushed,
    and sends the executor [removeDevice(device)] for a remove and
    [shrinkDevice(device, value)] for a shrink.  The requests of a
    prefix [sent] of the staged actions go out, one for each action, and
    the executor is left as these requests have made it.  Either every
    request succeeded, nothing is pending and [onNextClicked] is set; or
    the last request sent is the first that the executor rejected, no
    later request goes out, and the dialog error carries the payload of
    the rejection with a text that names the device and tells a
    deletion from a resizing.  The ledger is the same after the run. *)
Theorem reclaim_submits_in_order_until_first_failure :
  forall (modal : Modal Payload) (w : World Remote),
    let w' := fst (onReclaim removeDevice shrinkDevice modal w) in
    let modal' := snd (onReclaim removeDevice shrinkDevice modal w) in
    exists sent pending,
      stagedCalls (unappliedActions modal) = sent ++ pending
      /\ received w' = received w ++ map request sent
      /\ remote w' = performAll removeDevice shrinkDevice sent (remote w)
      /\ unappliedActions modal' = unappliedActions modal
      /\ ((pending = []
           /\ allSucceed removeDevice shrinkDevice sent (remote w)
           /\ onNextClicked modal' = true
           /\ dialogError modal' = dialogError modal)
          \/ (exists accepted item error,
                 sent = accepted ++ [item]
                 /\ allSucceed removeDevice shrinkDevice accepted (remote w)
                 /\ snd (perform removeDevice shrinkDevice item
                           (performAll removeDevice shrinkDevice accepted (remote w)))
                    = Some error
                 /\ dialogError modal' = Some {| payload := error; text := message item |}
                 /\ onNextClicked modal' = onNextClicked modal)).
Proof.
  intros modal w. simpl. unfold onReclaim. rewrite forEntries_flat.
  destruct (forCalls_performs (stagedCalls (unappliedActions modal)) w)
    as (sent & pending & Hsplit & Hlog & Hremote & Hresult).
  exists sent, pending.
  destruct (forCalls' (stagedCalls (unappliedActions modal)) w) as [w' [failure|]];
    simpl in *.
  - split; [exact Hsplit|]. split; [exact Hlog|]. split; [exact Hremote|].
    split; [reflexivity|]. right.
    destruct Hresult as (accepted & item & error & Hsent & Hacc & Hrej & ->).
    exists accepted, item, error. auto.
  - split; [exact Hsplit|]. split; [exact Hlog|]. split; [exact Hremote|].
    split; [reflexivity|]. left. destruct Hresult. auto.
Qed.
End OnReclaimFacts.

(** A run against a remote side that rejects the second of three calls:
    the third call does not go out. *)
Example reclaim_stops_at_rejected_shrink :
  let modal := {| unappliedActions := threeStaged;
                  dialogError := None;
                  onNextClicked := false |} in
  let start := {| remote := 0%nat; received := [] |} in
  onReclaim countingRemove countingShrink modal start
  = ({| remote := 1%nat;
        received := [CallRemoveDevice "vda1"; CallShrinkDevice "vda2" (JsNum 5)] |},
     {| unappliedActions := threeStaged;
        dialogError := Some {| payload := "too small";
                               text := UnableToScheduleResizing "vda2" |};
        onNextClicked := false |}).
Proof. reflexivity. Qed.

(** ** The keys of the ledger *)

Lemma keys_initialUnappliedActions devices :
  keys (initialUnappliedActions devices) = keys devices.
Proof.
  unfold initialUnappliedActions, keys. rewrite map_map. simpl. apply map_id.
Qed.

Lemma lookup_initialUnappliedActions devices name actions :
  lookup name (initialUnappliedActions devices) = Some actions -> actions = [].
Proof.
  unfold initialUnappliedActions. induction (keys devices) as [|k rest IH]; simpl.
  - discriminate.
  - destruct (String.eqb name k); [congruence|exact IH].
Qed.

Lemma step_keys rows ledger ledger' : step rows ledger ledger' -> keys ledger' = keys ledger.
Proof.
  intros H. destruct H as [row s c v l l' _ _ _ _ H|row s c l l' _ _ _ H|row s c l l' _ _ _ H].
  - apply onAction_Some in H. destruct H as [_ ->]. apply keys_update.
  - apply onAction_Some in H. destruct H as [_ ->]. apply keys_update.
  - apply onUndo_Some in H. destruct H as [_ ->]. apply keys_update.
Qed.

Lemma reachable_keys devices rows ledger :
  reachable devices rows ledger -> keys ledger = keys devices.
Proof.
  induction 1 as [|ledger ledger' _ IH Hstep].
  - apply keys_initialUnappliedActions.
  - rewrite (step_keys Hstep). exact IH.
Qed.

(** C8 (amended).  The keys of the initial ledger are the keys of the
    snapshot that [useOriginalDevices] has returned, in the same order
    and whatever disks are selected, and every key is mapped to the
    empty sequence; [onAction] and [onUndo] return a ledger with the
    same keys, in the same order, and so has every ledger of a session
    the keys it started with. *)
Theorem ledger_keys_fixed_at_construction :
  forall devices,
    keys (initialUnappliedActions devices) = keys devices
    /\ (forall name, In name (keys (initialUnappliedActions devices)) ->
                     lookup name (initialUnappliedActions devices) = Some [])
    /\ (forall device action value ledger ledger',
           onAction device action value ledger = Some ledger' ->
           keys ledger' = keys ledger)
    /\ (forall device ledger ledger',
           onUndo device ledger = Some ledger' -> keys ledger' = keys ledger)
    /\ (forall rows ledger,
           reachable devices rows ledger ->
           keys ledger = keys (initialUnappliedActions devices)).
Proof.
  intros devices. split; [|split; [|split; [|split]]].
  - apply keys_initialUnappliedActions.
  - intros name H. apply In_keys_lookup in H. destruct H as (actions & E).
    rewrite E. f_equal. eapply lookup_initialUnappliedActions. exact E.
  - intros device action value ledger ledger' H.
    apply onAction_Some in H. destruct H as [_ ->]. apply keys_update.
  - intros device ledger ledger' H.
    apply onUndo_Some in H. destruct H as [_ ->]. apply keys_update.
  - intros rows ledger H. rewrite keys_initialUnappliedActions.
    eapply reachable_keys. exact H.
Qed.

Lemma ledger_keys_fixed_at_construction_witness :
  onAction sda1 shrink (JsNum 50) (initialUnappliedActions diskAndSpare)
  = Some [("sda", []); ("sda1", [staged shrink (JsNum 50)]); ("vdb", [])]
  /\ keys [("sda", @nil Action.t); ("sda1", [staged shrink (JsNum 50)]); ("vdb", [])]
     = ["sda"; "sda1"; "vdb"].
Proof.
  assert (H : onAction sda1 shrink (JsNum 50) (initialUnappliedActions diskAndSpare)
              = Some [("sda", []); ("sda1", [staged shrink (JsNum 50)]); ("vdb", [])])
    by reflexivity.
  split; [exact H|].
  destruct (ledger_keys_fixed_at_construction diskAndSpare) as (Hkeys & _ & Hact & _).
  rewrite (Hact _ _ _ _ _ H). exact Hkeys.
Defined.

Lemma diskAndSpare_children x y : reaches (childrenOf diskAndSpare) x y -> y = "sda1".
Proof.
  assert (H : forall a b, In b (childrenOf diskAndSpare a) -> b = "sda1").
  { intros a b. unfold childrenOf, diskAndSpare. simpl.
    destruct (String.eqb a "sda"); simpl; [intros [<-|[]]; reflexivity|].
    destruct (String.eqb a "sda1"); simpl; [intros []|].
    destruct (String.eqb a "vdb"); simpl; intros []. }
  induction 1; eauto.
Qed.

(** C8 as stated fails: the ledger is built from the keys of the whole
    snapshot.  With the disks sda and vdb in the snapshot and sda alone
    selected, the table shows sda and its partition, and vdb, which is
    not reachable from the selected disk, is a key of the ledger all the
    same. *)
Lemma ledger_has_key_outside_the_selection :
  getRows 2 diskAndSpare ["sda"] = Some [Row.Build "sda" sda 0; Row.Build "sda1" sda1 1]
  /\ In "vdb" (keys (initialUnappliedActions diskAndSpare))
  /\ ~ underSelectedDisks diskAndSpare ["sda"] "vdb".
Proof.
  split; [reflexivity|]. split; [simpl; tauto|].
  intros H. inversion H as [disk Hdisk|disk device Hdisk Hreach]; subst.
  - destruct Hdisk as [E|[]]. discriminate E.
  - apply diskAndSpare_children in Hreach. discriminate Hreach.
Qed.

(** ** Rows *)

Lemma mapM_In {A B : Type} (f : A -> option (list B)) xs : forall yss y,
  mapM f xs = Some yss -> In y (List.concat yss) ->
  exists x ys, In x xs /\ f x = Some ys /\ In y ys.
Proof.
  induction xs as [|x rest IH]; intros yss y; simpl.
  - intros [= <-] [].
  - destruct (f x) as [ys|] eqn:E; simpl; [|discriminate].
    destruct (mapM f rest) as [yss'|]; simpl; [|discriminate].
    intros [= <-] H. simpl in H. apply in_app_or in H. destruct H as [H|H].
    + exists x, ys. auto.
    + destruct (IH yss' y eq_refl H) as (x' & ys' & Hx & Hf & Hy).
      exists x', ys'. auto.
Qed.

Lemma getDeviceRow_rows devices fuel : forall disk level rows row,
  getDeviceRow fuel devices disk level = Some rows -> In row rows ->
  lookup (Row.key row) devices = Some (Row.device row)
  /\ (level <= Row.level row)%nat
  /\ (Row.level row = level -> Row.key row = disk)
  /\ (Row.level row = S level -> In (Row.key row) (childrenOf devices disk)).
Proof.
  induction fuel as [|fuel IH]; intros disk level rows row; simpl; [discriminate|].
  destruct (lookup disk devices) as [device|] eqn:E; simpl; [|discriminate].
  destruct (hasLeafClass devices disk device) as [leaf|]; simpl; [|discriminate].
  destruct (mapM _ (Device.children device)) as [below|] eqn:M; simpl; [|discriminate].
  intros [= <-] [<-|H].
  - simpl. repeat split; [assumption|lia|lia].
  - destruct (@mapM_In _ _ _ _ _ _ M H) as (child & rows' & Hchild & Hrows & Hrow).
    destruct (IH child (S level) rows' row Hrows Hrow) as (Hdev & Hlevel & Hsame & _).
    split; [assumption|]. split; [lia|]. split; [lia|].
    intros Hl. unfold childrenOf. rewrite E. rewrite Hsame by exact Hl. assumption.
Qed.

Lemma getRows_rows devices fuel selectedDisks rows row :
  getRows fuel devices selectedDisks = Some rows -> In row rows ->
  lookup (Row.key row) devices = Some (Row.device row)
  /\ (Row.level row = 0%nat -> In (Row.key row) selectedDisks)
  /\ (Row.level row = 1%nat ->
      exists disk, In disk selectedDisks /\ In (Row.key row) (childrenOf devices disk)).
Proof.
  unfold getRows.
  destruct (mapM _ selectedDisks) as [nested|] eqn:M; simpl; [|discriminate].
  intros [= <-] H.
  destruct (@mapM_In _ _ _ _ _ _ M H) as (disk & rows' & Hdisk & Hrows & Hrow).
  destruct (@getDeviceRow_rows _ _ _ _ _ _ Hrows Hrow) as (Hdev & _ & Hsame & Hchild).
  split; [assumption|]. split.
  - intros Hl. now rewrite Hsame.
  - intros Hl. exists disk. auto.
Qed.

Lemma namesAreKeys_lookup devices key device :
  namesAreKeys devices = true -> lookup key devices = Some device ->
  Device.name device = key.
Proof.
  unfold namesAreKeys. rewrite forallb_forall. intros H E.
  apply lookup_In in E. specialize (H _ E). now apply String.eqb_eq in H.
Qed.

(** ** What a rendered row offers *)

Lemma DeviceActions_rendered shrinkable device level ledger controls :
  DeviceActions shrinkable device level ledger = Some (Some controls) ->
  (level <= 1)%nat
  /\ exists removed size undo,
      hasBeenRemoved device ledger = Some removed
      /\ newDeviceSize device ledger = Some size
      /\ hasUnappliedActions device ledger = Some undo
      /\ Controls.shrinkView controls = DeviceActionShrink shrinkable device removed size
      /\ Controls.deleteView controls = DeviceActionDelete device removed size
      /\ Controls.undoButton controls = undo.
Proof.
  unfold DeviceActions. destruct (Nat.ltb_spec 1 level) as [|Hle]; [discriminate|].
  destruct (hasBeenRemoved device ledger) as [removed|]; simpl; [|discriminate].
  destruct (newDeviceSize device ledger) as [size|]; simpl; [|discriminate].
  destruct (hasUnappliedActions device ledger) as [undo|]; simpl; [|discriminate].
  intros [= <-]. split; [assumption|]. exists removed, size, undo. simpl. auto 10.
Qed.

Lemma hasBeenRemoved_false device ledger actions :
  hasBeenRemoved device ledger = Some false ->
  lookup (Device.name device) ledger = Some actions ->
  includes remove (map Action.type actions) = false.
Proof.
  unfold hasBeenRemoved. destruct (parentHasRemove device ledger) as [[|]|]; simpl;
    [discriminate| |discriminate].
  unfold getDeviceActionOfType. intros H E. rewrite E in H. simpl in H.
  rewrite isSome_find_includes in H. congruence.
Qed.

Lemma newDeviceSize_found device ledger actions size :
  newDeviceSize device ledger = Some size ->
  lookup (Device.name device) ledger = Some actions ->
  size = option_map Action.value
           (find (fun action => ActionType_eqb (Action.type action) shrink) actions).
Proof.
  unfold newDeviceSize, getDeviceActionOfType. intros H E. rewrite E in H.
  simpl in H. congruence.
Qed.

Lemma shrink_button_rendered shrinkable device removed size disabled :
  DeviceActionShrink shrinkable device removed size = ShrinkButton disabled ->
  removed = false /\ truthy size = false /\ isDiskType device = false.
Proof.
  unfold DeviceActionShrink. destruct removed; [discriminate|].
  destruct (truthy size) eqn:T.
  - destruct size; discriminate.
  - destruct (isDiskType device); [discriminate|auto].
Qed.

Lemma delete_button_rendered device removed size disabled :
  DeviceActionDelete device removed size = DeleteButton disabled ->
  removed = false /\ size = None
  /\ disabled = (isDiskType device && (List.length (Device.children device) =? 0)%nat).
Proof.
  unfold DeviceActionDelete. destruct size; [discriminate|].
  destruct removed.
  - destruct (negb (isDiskType device)); discriminate.
  - intros [= <-]. auto.
Qed.

Lemma includes_push wanted actions action :
  includes wanted (map Action.type (push action actions))
  = includes wanted (map Action.type actions)
    || ActionType_eqb wanted (Action.type action).
Proof.
  unfold includes, push. rewrite map_app, existsb_app. simpl. now rewrite orb_false_r.
Qed.

Lemma includes_pop wanted actions :
  includes wanted (map Action.type actions) = false ->
  includes wanted (map Action.type (pop actions)) = false.
Proof.
  unfold pop. intros H. apply not_true_iff_false. intros H'.
  apply not_true_iff_false in H. apply H.
  apply includes_exists in H'. destruct H' as (a & Ha & E).
  apply includes_exists. exists a. split; [|exact E].
  clear -Ha. induction actions as [|x rest IH]; [destruct Ha|].
  simpl in Ha. destruct rest as [|y rest']; [destruct Ha|].
  destruct Ha as [->|Ha]; [now left|right; auto].
Qed.

(** ** Sessions *)

Lemma step_change rows ledger ledger' :
  step rows ledger ledger' ->
  exists row shrinkable controls change,
    In row rows
    /\ DeviceActions shrinkable (Row.device row) (Row.level row) ledger
       = Some (Some controls)
    /\ offered change (Row.device row) controls
    /\ In (Device.name (Row.device row)) (keys ledger)
    /\ ledger' = update (Device.name (Row.device row)) (applyChange change) ledger.
Proof.
  intros H.
  destruct H as [row s c v l l' Hin Hc Hview Hv H|row s c l l' Hin Hc Hview H
                |row s c l l' Hin Hc Hview H].
  - apply onAction_Some in H. destruct H as [Hkey ->].
    exists row, s, c, (ChangeShrink v). simpl. auto 10.
  - apply onAction_Some in H. destruct H as [Hkey ->].
    exists row, s, c, ChangeRemove. simpl. auto 10.
  - apply onUndo_Some in H. destruct H as [Hkey ->].
    exists row, s, c, ChangeUndo. simpl. auto 10.
Qed.

Lemma In_update {A : Type} (obj : JsObject A) key f k v :
  In (k, v) (update key f obj) ->
  In (k, v) obj \/ exists old, lookup key obj = Some old /\ v = f old.
Proof.
  induction obj as [|[k' w] rest IH]; simpl; [tauto|].
  destruct (String.eqb_spec key k') as [->|Hne]; simpl.
  - intros [[= <- <-]|H]; [right; eauto|left; now right].
  - intros [H|H]; [left; now left|].
    destruct (IH H) as [H'|H']; [left; now right|now right].
Qed.

Lemma offered_change_keeps_one_action change device shrinkable level ledger controls old :
  DeviceActions shrinkable device level ledger = Some (Some controls) ->
  offered change device controls ->
  lookup (Device.name device) ledger = Some old ->
  atMostOneAction old ->
  atMostOneAction (applyChange change old).
Proof.
  intros Hc Hoffered Hold Hone.
  apply DeviceActions_rendered in Hc.
  destruct Hc as (_ & removed & size & undo & Hrem & Hsize & _ & Hsv & Hdv & _).
  pose proof (newDeviceSize_found _ _ Hsize Hold) as Efound.
  destruct change as [v| |]; simpl in *.
  - destruct Hoffered as [Hview Hv]. rewrite Hsv in Hview.
    apply shrink_button_rendered in Hview. destruct Hview as (-> & Htruthy & _).
    pose proof (hasBeenRemoved_false _ _ Hrem Hold) as Hnone.
    destruct Hone as [->|[->|(z & Hz & ->)]].
    + right. right. exists v. split; [|reflexivity].
      intros ->. unfold resizeIsDisabled in Hv. simpl in Hv. discriminate.
    + discriminate.
    + subst size. simpl in Htruthy. apply negb_false_iff, Z.eqb_eq in Htruthy.
      contradiction.
  - rewrite Hdv in Hoffered. apply delete_button_rendered in Hoffered.
    destruct Hoffered as (-> & -> & _).
    pose proof (hasBeenRemoved_false _ _ Hrem Hold) as Hnone.
    destruct Hone as [->|[->|(z & Hz & ->)]].
    + right. now left.
    + discriminate.
    + discriminate.
  - left. destruct Hone as [->|[->|(z & Hz & ->)]]; reflexivity.
Qed.

(** Every sequence of a session holds at most one action. *)
Lemma reachable_at_most_one_action devices rows ledger :
  reachable devices rows ledger ->
  forall name actions, In (name, actions) ledger -> atMostOneAction actions.
Proof.
  induction 1 as [|ledger ledger' _ IH Hstep]; intros name actions Hin.
  - left. unfold initialUnappliedActions in Hin. apply in_map_iff in Hin.
    destruct Hin as (k & [= _ <-] & _). reflexivity.
  - apply step_change in Hstep.
    destruct Hstep as (row & s & c & change & _ & Hc & Hoffered & _ & ->).
    apply In_update in Hin. destruct Hin as [Hin|(old & Hold & ->)]; [eauto|].
    eapply offered_change_keeps_one_action; try eassumption.
    eapply IH. eapply lookup_In. exact Hold.
Qed.

(** ... so no sequence of a session holds both a remove and a shrink. *)
Lemma reachable_unmixed devices rows ledger :
  reachable devices rows ledger -> unmixed ledger = true.
Proof.
  intros H. unfold unmixed. apply forallb_forall. intros [name actions] Hin.
  destruct (reachable_at_most_one_action H _ _ Hin) as [->|[->|(z & _ & ->)]];
    reflexivity.
Qed.

Lemma reachable_actions_at_upper_levels devices rows ledger :
  reachable devices rows ledger ->
  forall name actions,
    lookup name ledger = Some actions -> actions <> [] ->
    exists row, In row rows /\ Device.name (Row.device row) = name
                /\ (Row.level row <= 1)%nat.
Proof.
  induction 1 as [|ledger ledger' _ IH Hstep]; intros name actions Hlook Hne.
  - apply lookup_initialUnappliedActions in Hlook. contradiction.
  - apply step_change in Hstep.
    destruct Hstep as (row & s & c & change & Hrow & Hc & _ & _ & ->).
    destruct (string_dec name (Device.name (Row.device row))) as [->|Hother].
    + exists row. apply DeviceActions_rendered in Hc. destruct Hc as [Hlevel _]. auto.
    + rewrite lookup_update_other in Hlook by assumption. eauto.
Qed.

Lemma reachable_no_remove_on_bare_disk devices rows fuel selectedDisks ledger :
  getRows fuel devices selectedDisks = Some rows ->
  namesAreKeys devices = true ->
  reachable devices rows ledger ->
  forall name device actions,
    lookup name devices = Some device ->
    isDiskType device = true -> Device.children device = [] ->
    lookup name ledger = Some actions ->
    includes remove (map Action.type actions) = false.
Proof.
  intros Hrows Hnames. induction 1 as [|ledger ledger' _ IH Hstep];
    intros name device actions Hdev Hdisk Hbare Hlook.
  - apply lookup_initialUnappliedActions in Hlook. now subst.
  - apply step_change in Hstep.
    destruct Hstep as (row & s & c & change & Hrow & Hc & Hoffered & _ & ->).
    destruct (string_dec name (Device.name (Row.device row))) as [->|Hother].
    + rewrite lookup_update_same in Hlook.
      destruct (lookup (Device.name (Row.device row)) ledger) as [old|] eqn:Hold;
        [|discriminate].
      simpl in Hlook. injection Hlook as <-.
      specialize (IH _ _ _ Hdev Hdisk Hbare Hold).
      destruct change as [v| |]; simpl.
      * rewrite includes_push, IH. reflexivity.
      * exfalso. simpl in Hoffered.
        apply DeviceActions_rendered in Hc.
        destruct Hc as (_ & removed & size & undo & _ & _ & _ & _ & Hdv & _).
        rewrite Hdv in Hoffered. apply delete_button_rendered in Hoffered.
        destruct Hoffered as (_ & _ & Hdisabled).
        destruct (@getRows_rows _ _ _ _ _ Hrows Hrow) as (Hrowdev & _).
        rewrite <- (@namesAreKeys_lookup _ _ _ Hnames Hrowdev) in Hrowdev.
        rewrite Hrowdev in Hdev. injection Hdev as <-.
        rewrite Hdisk, Hbare in Hdisabled. discriminate.
      * now apply includes_pop.
    + rewrite lookup_update_other in Hlook by assumption. eauto.
Qed.

(** C10 (amended).  With the rows of the table as [getDeviceRow] builds
    them: a row at level 2 or deeper renders no controls, whatever the
    ledger; the rows at levels 0 and 1 are the selected disks and their
    children.  In every ledger of a session, a device with a staged
    action has a row at level 0 or 1, so the sequence of a device whose
    rows all lie at level 2 or deeper stays empty; and the sequence of
    a device of type "disk" without children never holds a remove. *)
Theorem actions_only_at_levels_zero_and_one :
  forall fuel devices selectedDisks rows,
    getRows fuel devices selectedDisks = Some rows ->
    namesAreKeys devices = true ->
    (forall row shrinkable ledger,
        In row rows -> (2 <= Row.level row)%nat ->
        DeviceActions shrinkable (Row.device row) (Row.level row) ledger = Some None)
    /\ (forall row,
           In row rows -> (Row.level row <= 1)%nat ->
           In (Row.key row) selectedDisks
           \/ exists disk, In disk selectedDisks
                           /\ In (Row.key row) (childrenOf devices disk))
    /\ forall ledger,
        reachable devices rows ledger ->
        (forall name actions,
            lookup name ledger = Some actions -> actions <> [] ->
            exists row, In row rows /\ Device.name (Row.device row) = name
                        /\ (Row.level row <= 1)%nat)
        /\ (forall name,
               (forall row, In row rows -> Device.name (Row.device row) = name ->
                            (2 <= Row.level row)%nat) ->
               forall actions, lookup name ledger = Some actions -> actions = [])
        /\ (forall name device actions,
               lookup name devices = Some device ->
               isDiskType device = true -> Device.children device = [] ->
               lookup name ledger = Some actions ->
               includes remove (map Action.type actions) = false).
Proof.
  intros fuel devices selectedDisks rows Hrows Hnames. split; [|split].
  - intros row shrinkable ledger _ Hlevel. unfold DeviceActions.
    destruct (Nat.ltb_spec 1 (Row.level row)); [reflexivity|lia].
  - intros row Hrow Hlevel.
    destruct (@getRows_rows _ _ _ _ _ Hrows Hrow) as (_ & Hzero & Hone).
    destruct (Row.level row) as [|[|n]]; [left; auto|right; auto|lia].
  - intros ledger Hreach.
    pose proof (reachable_actions_at_upper_levels Hreach) as Hupper.
    split; [exact Hupper|]. split.
    + intros name Hdeep actions Hlook.
      destruct actions as [|a rest]; [reflexivity|]. exfalso.
      destruct (Hupper name (a :: rest) Hlook) as (row & Hrow & Hname & Hlevel);
        [discriminate|].
      specialize (Hdeep row Hrow Hname). lia.
    + eapply reachable_no_remove_on_bare_disk; eassumption.
Qed.

Lemma actions_only_at_levels_zero_and_one_witness :
  exists rows,
    getRows 3 raidDisks ["sdb"] = Some rows
    /\ namesAreKeys raidDisks = true
    /\ In (Row.Build "md0p1" md0p1 2) rows
    /\ forall ledger,
        reachable raidDisks rows ledger ->
        forall actions, lookup "md0p1" ledger = Some actions -> actions = [].
Proof.
  eexists. split; [reflexivity|]. split; [reflexivity|].
  split; [simpl; tauto|].
  intros ledger Hreach.
  apply (proj1 (proj2 (proj2 (proj2 (@actions_only_at_levels_zero_and_one
           3 raidDisks ["sdb"] _ eq_refl eq_refl)) ledger Hreach))).
  intros row [<-|[<-|[<-|[]]]] Hname; simpl in *; try discriminate. lia.
Defined.

(** C10 as stated fails where a selected disk lies below another, and
    for a disk of another type.  With the array md0 selected next to
    the disk sdb it sits on, the partition md0p1 is nested two levels
    below the selected disk sdb, where it has a row at level 2; its row
    at level 1, below md0, offers the controls, and a shrink is staged
    for it.  And an array without partitions that is selected as a disk
    is of type "mdarray": its delete button is enabled, and a remove is
    staged for it. *)
Lemma staged_action_two_levels_below_a_disk :
  getRows 3 raidDisks raidSelection = Some raidRows
  /\ In "sdb" raidSelection
  /\ In "md0" (childrenOf raidDisks "sdb")
  /\ In "md0p1" (childrenOf raidDisks "md0")
  /\ In (Row.Build "md0p1" md0p1 2) raidRows
  /\ reachable raidDisks raidRows diskRemovedUnderArray
  /\ lookup "md0p1" diskRemovedUnderArray = Some [staged shrink (JsNum 20)]
  /\ getRows 2 bareArray ["md1"] = Some [Row.Build "md1" md1 0]
  /\ Device.children md1 = []
  /\ reachable bareArray [Row.Build "md1" md1 0] arrayRemoved
  /\ lookup "md1" arrayRemoved = Some [staged remove JsEmptyString].
Proof.
  split; [exact raidRows_built|]. split; [simpl; tauto|].
  split; [simpl; tauto|]. split; [simpl; tauto|]. split; [simpl; tauto|].
  split; [exact diskRemovedUnderArray_reachable|]. split; [reflexivity|].
  split; [reflexivity|]. split; [reflexivity|]. split; [|reflexivity].
  eapply reachable_click; [apply reachable_initial|].
  eapply (@step_remove _ (Row.Build "md1" md1 0) (Some true));
    [simpl; tauto|reflexivity|reflexivity|reflexivity].
Qed.

(** * Further properties of the source *)

(** ** The two updaters *)

(** X1.  [onAction] and [onUndo] throw exactly when the name of the
    device is no key of the ledger.  Otherwise [onAction] puts the new
    action behind the actions the device has, and changes neither
    another sequence nor the keys. *)
Theorem updaters_throw_on_missing_key_and_append_last :
  forall device action value ledger,
    (onAction device action value ledger = None
     <-> ~ In (Device.name device) (keys ledger))
    /\ (onUndo device ledger = None <-> ~ In (Device.name device) (keys ledger))
    /\ forall actions,
        lookup (Device.name device) ledger = Some actions ->
        exists ledger',
          onAction device action value ledger = Some ledger'
          /\ lookup (Device.name device) ledger'
             = Some (actions ++ [Action.Build action value])
          /\ (forall other, other <> Device.name device ->
                            lookup other ledger' = lookup other ledger)
          /\ keys ledger' = keys ledger.
Proof.
  intros device action value ledger.
  assert (Hnone : lookup (Device.name device) ledger = None
                  <-> ~ In (Device.name device) (keys ledger)).
  { split.
    - intros E H. apply In_keys_lookup in H. destruct H as (v & Hv). congruence.
    - intros H. destruct (lookup (Device.name device) ledger) eqn:E; [|reflexivity].
      exfalso. apply H. eapply lookup_In_keys. exact E. }
  split; [|split].
  - rewrite <- Hnone. unfold onAction.
    destruct (lookup (Device.name device) ledger); simpl;
      split; intros H; try discriminate H; reflexivity.
  - rewrite <- Hnone. unfold onUndo.
    destruct (lookup (Device.name device) ledger); simpl;
      split; intros H; try discriminate H; reflexivity.
  - intros actions E. unfold onAction. rewrite E. simpl. eexists.
    split; [reflexivity|]. split; [|split].
    + rewrite lookup_update_same, E. reflexivity.
    + intros other Hne. now apply lookup_update_other.
    + apply keys_update.
Qed.

Lemma updaters_throw_on_missing_key_and_append_last_witness :
  lookup (Device.name sda1) shrunkTwice
  = Some [staged shrink (JsNum 50); staged shrink (JsNum 30)]
  /\ exists ledger',
       onAction sda1 remove JsEmptyString shrunkTwice = Some ledger'
       /\ lookup (Device.name sda1) ledger'
          = Some [staged shrink (JsNum 50); staged shrink (JsNum 30);
                  staged remove JsEmptyString].
Proof.
  split; [reflexivity|].
  destruct (proj2 (proj2 (updaters_throw_on_missing_key_and_append_last
                            sda1 remove JsEmptyString shrunkTwice)) _ eq_refl)
    as (ledger' & Hact & Hlook & _).
  exists ledger'. split; [exact Hact|exact Hlook].
Defined.

(** ** What a row renders *)

Lemma someM_ext_in {A : Type} (p q : A -> option bool) xs :
  (forall x, In x xs -> p x = q x) -> someM p xs = someM q xs.
Proof.
  induction xs as [|x rest IH]; intros H; simpl; [reflexivity|].
  rewrite (H x (or_introl eq_refl)). destruct (q x) as [[|]|]; simpl; try reflexivity.
  apply IH. intros y Hy. apply H. now right.
Qed.

Lemma hasBeenRemoved_false_parent device ledger :
  hasBeenRemoved device ledger = Some false -> parentHasRemove device ledger = Some false.
Proof.
  unfold hasBeenRemoved. destruct (parentHasRemove device ledger) as [[|]|]; simpl;
    [discriminate|reflexivity|discriminate].
Qed.

Lemma parentHasRemove_update device ledger f :
  ~ In (Device.name device) (Device.parents device) ->
  parentHasRemove device (update (Device.name device) f ledger)
  = parentHasRemove device ledger.
Proof.
  intros Hself. unfold parentHasRemove. apply someM_ext_in.
  intros parent Hp. unfold getDeviceActionOfType.
  rewrite lookup_update_other; [reflexivity|].
  intros ->. contradiction.
Qed.

Lemma staged_action_can_be_undone shrinkable device level ledger action value old :
  (level <= 1)%nat ->
  parentHasRemove device ledger = Some false ->
  ~ In (Device.name device) (Device.parents device) ->
  lookup (Device.name device) ledger = Some old ->
  let ledger' := update (Device.name device) (push (Action.Build action value)) ledger in
  exists controls,
    DeviceActions shrinkable device level ledger' = Some (Some controls)
    /\ Controls.undoButton controls = true
    /\ onUndo device ledger' = Some ledger.
Proof.
  intros Hlevel Hparent Hself Hold ledger'.
  assert (Hlook : lookup (Device.name device) ledger'
                  = Some (push (Action.Build action value) old)).
  { unfold ledger'. rewrite lookup_update_same, Hold. reflexivity. }
  assert (Hparent' : parentHasRemove device ledger' = Some false).
  { unfold ledger'. now rewrite parentHasRemove_update. }
  unfold DeviceActions. destruct (Nat.ltb_spec 1 level) as [|_]; [lia|].
  unfold hasBeenRemoved, newDeviceSize, hasUnappliedActions, getDeviceActionOfType.
  rewrite Hparent', Hlook. simpl. eexists. split; [reflexivity|]. simpl. split.
  - unfold push. rewrite length_app. simpl.
    destruct (Nat.ltb_spec 0 (List.length old + 1)); [reflexivity|lia].
  - unfold onUndo. rewrite Hlook. simpl. unfold ledger'.
    rewrite update_update. f_equal. apply update_unchanged.
    intros v _. apply pop_push.
Qed.

(** X2.  Whatever a row lets the user stage can be taken back at once:
    after a click on the enabled shrink or delete control of a row, the
    same row renders the undo button, and [onUndo] gives back the ledger
    from before the click.  (The device is taken not to name itself as
    its own parent.) *)
Theorem staged_click_offers_undo :
  forall shrinkable device level ledger controls,
    DeviceActions shrinkable device level ledger = Some (Some controls) ->
    ~ In (Device.name device) (Device.parents device) ->
    (forall value ledger' shrinkable',
        Controls.shrinkView controls = ShrinkButton false ->
        onShrink device value ledger = Some ledger' ->
        exists controls',
          DeviceActions shrinkable' device level ledger' = Some (Some controls')
          /\ Controls.undoButton controls' = true
          /\ onUndo device ledger' = Some ledger)
    /\ (forall ledger' shrinkable',
           Controls.deleteView controls = DeleteButton false ->
           onRemove device ledger = Some ledger' ->
           exists controls',
             DeviceActions shrinkable' device level ledger' = Some (Some controls')
             /\ Controls.undoButton controls' = true
             /\ onUndo device ledger' = Some ledger).
Proof.
  intros shrinkable device level ledger controls Hc Hself.
  apply DeviceActions_rendered in Hc.
  destruct Hc as (Hlevel & removed & size & undo & Hrem & _ & _ & Hsv & Hdv & _).
  split.
  - intros value ledger' shrinkable' Hview Hstage.
    rewrite Hsv in Hview. apply shrink_button_rendered in Hview.
    destruct Hview as (-> & _ & _).
    apply hasBeenRemoved_false_parent in Hrem.
    apply onAction_Some in Hstage. destruct Hstage as [Hkey ->].
    apply In_keys_lookup in Hkey. destruct Hkey as (old & Hold).
    eapply staged_action_can_be_undone; eassumption.
  - intros ledger' shrinkable' Hview Hstage.
    rewrite Hdv in Hview. apply delete_button_rendered in Hview.
    destruct Hview as (-> & _ & _).
    apply hasBeenRemoved_false_parent in Hrem.
    apply onAction_Some in Hstage. destruct Hstage as [Hkey ->].
    apply In_keys_lookup in Hkey. destruct Hkey as (old & Hold).
    eapply staged_action_can_be_undone; eassumption.
Qed.

Lemma staged_click_offers_undo_witness :
  exists controls ledger',
    DeviceActions (Some true) sda1 1 (initialUnappliedActions oneDisk)
    = Some (Some controls)
    /\ ~ In (Device.name sda1) (Device.parents sda1)
    /\ Controls.shrinkView controls = ShrinkButton false
    /\ onShrink sda1 50 (initialUnappliedActions oneDisk) = Some ledger'
    /\ exists controls',
         DeviceActions None sda1 1 ledger' = Some (Some controls')
         /\ Controls.undoButton controls' = true
         /\ onUndo sda1 ledger' = Some (initialUnappliedActions oneDisk).
Proof.
  assert (Hself : ~ In (Device.name sda1) (Device.parents sda1)).
  { intros [H|[]]. discriminate H. }
  eexists. eexists. split; [reflexivity|]. split; [exact Hself|].
  split; [reflexivity|]. split; [reflexivity|].
  exact (proj1 (@staged_click_offers_undo (Some true) sda1 1%nat
                  (initialUnappliedActions oneDisk) _ eq_refl Hself)
           50 _ None eq_refl eq_refl).
Defined.



(** X4.  The controls of one row exclude each other: the text "shrink
    to ..." comes with no delete control at all, the 'delete' text with
    no shrink control, and a delete button never with the shrink text.
    A device of type "disk" gets neither a shrink button nor the
    'delete' text, and the shrink text is never shown for a size that
    is falsy (0 or the empty string). *)
Theorem row_controls_exclude_each_other :
  forall shrinkable device level ledger controls,
    DeviceActions shrinkable device level ledger = Some (Some controls) ->
    (forall size, Controls.shrinkView controls = ShrinkText size ->
                  Controls.deleteView controls = DeleteNothing
                  /\ truthy (Some size) = true)
    /\ (Controls.deleteView controls = DeleteText ->
        Controls.shrinkView controls = ShrinkNothing)
    /\ (forall disabled size,
           Controls.deleteView controls = DeleteButton disabled ->
           Controls.shrinkView controls <> ShrinkText size)
    /\ (isDiskType device = true ->
        (forall disabled, Controls.shrinkView controls <> ShrinkButton disabled)
        /\ Controls.deleteView controls <> DeleteText).
Proof.
  intros shrinkable device level ledger controls Hc.
  apply DeviceActions_rendered in Hc.
  destruct Hc as (_ & removed & size & undo & _ & _ & _ & Hsv & Hdv & _).
  rewrite Hsv, Hdv. unfold DeviceActionShrink, DeviceActionDelete.
  destruct removed, size as [[z|]|], (isDiskType device) eqn:Hdisk;
    simpl; try destruct (z =? 0) eqn:Hz; simpl;
    repeat split; try discriminate; try congruence;
    try (intros; discriminate);
    try (intros ? [= <-]; simpl; rewrite ?Hz; auto);
    try (intros ? ? ?; discriminate);
    try match goal with
        | H : ShrinkText _ = ShrinkText _ |- _ =>
            injection H as <-; simpl; rewrite Hz; reflexivity
        end.
Qed.

Lemma row_controls_exclude_each_other_witness :
  exists controls,
    DeviceActions (Some true) sda1 1 shrunkTwice = Some (Some controls)
    /\ Controls.shrinkView controls = ShrinkText (JsNum 50)
    /\ Controls.deleteView controls = DeleteNothing.
Proof.
  eexists. split; [reflexivity|]. split; [reflexivity|].
  exact (proj1 (proj1 (@row_controls_exclude_each_other (Some true) sda1 1%nat
                         shrunkTwice _ eq_refl) (JsNum 50) eq_refl)).
Defined.

(** ** Sessions never throw *)

Lemma parents_in_parentNames devices key device :
  lookup key devices = Some device ->
  incl (Device.parents device) (parentNames devices).
Proof.
  intros E parent Hp. unfold parentNames. apply in_flat_map.
  exists (key, device). split; [now apply lookup_In|exact Hp].
Qed.

Lemma DeviceActions_defined shrinkable device level ledger :
  In (Device.name device) (keys ledger) ->
  incl (Device.parents device) (keys ledger) ->
  exists result, DeviceActions shrinkable device level ledger = Some result.
Proof.
  intros Hkey Hparents. unfold DeviceActions.
  destruct (1 <? level)%nat; [eauto|].
  apply In_keys_lookup in Hkey. destruct Hkey as (actions & Hlook).
  unfold hasBeenRemoved, newDeviceSize, hasUnappliedActions, getDeviceActionOfType.
  rewrite (parentHasRemove_pure device ledger Hparents), Hlook. simpl.
  destruct (existsb _ _); simpl; eauto.
Qed.

(** X5.  On a snapshot in which every device is filed under its own
    name and every parent is a device, no row of the table throws while
    its controls are rendered, in whatever state a session is. *)
Theorem rows_render_in_every_session_state :
  forall fuel devices selectedDisks rows ledger,
    getRows fuel devices selectedDisks = Some rows ->
    namesAreKeys devices = true ->
    parentsClosed devices = true ->
    reachable devices rows ledger ->
    forall row shrinkable,
      In row rows ->
      exists result,
        DeviceActions shrinkable (Row.device row) (Row.level row) ledger = Some result.
Proof.
  intros fuel devices selectedDisks rows ledger Hrows Hnames Hclosed Hreach
         row shrinkable Hrow.
  destruct (@getRows_rows _ _ _ _ _ Hrows Hrow) as (Hdev & _).
  pose proof (reachable_keys Hreach) as Hkeys.
  apply DeviceActions_defined.
  - rewrite Hkeys, (@namesAreKeys_lookup _ _ _ Hnames Hdev).
    eapply lookup_In_keys. exact Hdev.
  - intros parent Hp. rewrite Hkeys.
    eapply forallb_isSome_keys; [exact Hclosed|].
    eapply parents_in_parentNames; eassumption.
Qed.

Lemma rows_render_in_every_session_state_witness :
  exists rows,
    getRows 3 raidDisks raidSelection = Some rows
    /\ namesAreKeys raidDisks = true
    /\ parentsClosed raidDisks = true
    /\ reachable raidDisks rows (initialUnappliedActions raidDisks)
    /\ exists result,
         DeviceActions None md0p1 1 (initialUnappliedActions raidDisks) = Some result.
Proof.
  eexists. split; [reflexivity|]. split; [reflexivity|]. split; [reflexivity|].
  split; [apply reachable_initial|].
  apply (@rows_render_in_every_session_state 3 raidDisks raidSelection _
           (initialUnappliedActions raidDisks) eq_refl eq_refl eq_refl
           (reachable_initial _ _) (Row.Build "md0p1" md0p1 1) None).
  simpl. tauto.
Defined.

(** ** What a session never stages *)

Lemma In_pop (action : Action.t) actions : In action (pop actions) -> In action actions.
Proof.
  unfold pop. induction actions as [|x rest IH]; simpl; [tauto|].
  destruct rest as [|y rest']; [intros []|].
  intros [->|H]; [now left|right; auto].
Qed.

(** X6.  In every state of a session a device holds at most one staged
    action: its sequence is empty, one remove (with the empty string as
    value) or one shrink to a size other than 0. *)
Theorem session_stages_one_action_per_device :
  forall devices rows ledger,
    reachable devices rows ledger ->
    forall name actions,
      lookup name ledger = Some actions ->
      (List.length actions <= 1)%nat /\ atMostOneAction actions.
Proof.
  intros devices rows ledger Hreach name actions Hlook.
  assert (H : atMostOneAction actions).
  { eapply reachable_at_most_one_action; [exact Hreach|].
    eapply lookup_In. exact Hlook. }
  split; [|exact H].
  destruct H as [->|[->|(size & _ & ->)]]; simpl; lia.
Qed.

Lemma session_stages_one_action_per_device_witness :
  exists rows,
    getRows 3 raidDisks raidSelection = Some rows
    /\ reachable raidDisks rows diskRemovedUnderArray
    /\ lookup "md0p1" diskRemovedUnderArray = Some [staged shrink (JsNum 20)]
    /\ (List.length [staged shrink (JsNum 20)] <= 1)%nat.
Proof.
  eexists. split; [reflexivity|].
  assert (Hreach : reachable raidDisks
            [Row.Build "sdb" sdb 0; Row.Build "md0" md0 1; Row.Build "md0p1" md0p1 2;
             Row.Build "md0" md0 0; Row.Build "md0p1" md0p1 1]
            diskRemovedUnderArray).
  { eapply reachable_click.
    - eapply reachable_click; [apply reachable_initial|].
      eapply (@step_shrink _ (Row.Build "md0p1" md0p1 1) (Some true) _ 20);
        [simpl; tauto|reflexivity|reflexivity|reflexivity|reflexivity].
    - eapply (@step_remove _ (Row.Build "sdb" sdb 0) (Some true));
        [simpl; tauto|reflexivity|reflexivity|reflexivity]. }
  split; [exact Hreach|]. split; [reflexivity|].
  exact (proj1 (session_stages_one_action_per_device Hreach "md0p1" eq_refl)).
Defined.

Lemma resize_enabled_integer total value :
  resizeIsDisabled total (inject_Z value) = false -> value <> 0 /\ value <> total.
Proof.
  unfold resizeIsDisabled. intros H. apply orb_false_iff in H. destruct H as [H0 Ht].
  split; intros ->.
  - discriminate H0.
  - rewrite (proj2 (Qeq_bool_iff (inject_Z total) (inject_Z total))) in Ht;
      [discriminate|reflexivity].
Qed.

(** X7.  A session never stages a shrink for a device of type "disk",
    and never a shrink to 0 or to the full size of the device: every
    staged shrink carries a number other than these two. *)
Theorem session_shrinks_partitions_to_proper_sizes :
  forall fuel devices selectedDisks rows ledger,
    getRows fuel devices selectedDisks = Some rows ->
    namesAreKeys devices = true ->
    reachable devices rows ledger ->
    forall name device actions action,
      lookup name devices = Some device ->
      lookup name ledger = Some actions ->
      In action actions ->
      Action.type action = shrink ->
      isDiskType device = false
      /\ exists size, Action.value action = JsNum size
                      /\ size <> 0 /\ size <> Device.total device.
Proof.
  intros fuel devices selectedDisks rows ledger Hrows Hnames.
  induction 1 as [|ledger ledger' _ IH Hstep];
    intros name device actions action Hdev Hlook Hin Htype.
  - apply lookup_initialUnappliedActions in Hlook. subst. destruct Hin.
  - apply step_change in Hstep.
    destruct Hstep as (row & s & c & change & Hrow & Hc & Hoffered & _ & ->).
    destruct (string_dec name (Device.name (Row.device row))) as [->|Hother].
    + rewrite lookup_update_same in Hlook.
      destruct (lookup (Device.name (Row.device row)) ledger) as [old|] eqn:Hold;
        [|discriminate].
      simpl in Hlook. injection Hlook as <-.
      destruct (@getRows_rows _ _ _ _ _ Hrows Hrow) as (Hrowdev & _).
      rewrite <- (@namesAreKeys_lookup _ _ _ Hnames Hrowdev) in Hrowdev.
      rewrite Hrowdev in Hdev. injection Hdev as <-.
      destruct change as [v| |]; simpl in Hin.
      * apply in_app_or in Hin. destruct Hin as [Hin|[<-|[]]]; [eauto|].
        simpl in Hoffered. destruct Hoffered as [Hview Hv].
        apply DeviceActions_rendered in Hc.
        destruct Hc as (_ & removed & size & undo & _ & _ & _ & Hsv & _).
        rewrite Hsv in Hview. apply shrink_button_rendered in Hview.
        destruct Hview as (_ & _ & Hdisk).
        apply resize_enabled_integer in Hv.
        split; [exact Hdisk|]. exists v. simpl. tauto.
      * apply in_app_or in Hin. destruct Hin as [Hin|[<-|[]]]; [eauto|].
        discriminate Htype.
      * apply In_pop in Hin. eauto.
    + rewrite lookup_update_other in Hlook by assumption. eauto.
Qed.

Lemma session_shrinks_partitions_to_proper_sizes_witness :
  exists rows,
    getRows 3 raidDisks raidSelection = Some rows
    /\ namesAreKeys raidDisks = true
    /\ reachable raidDisks rows diskRemovedUnderArray
    /\ lookup "md0p1" raidDisks = Some md0p1
    /\ lookup "md0p1" diskRemovedUnderArray = Some [staged shrink (JsNum 20)]
    /\ isDiskType md0p1 = false.
Proof.
  eexists. split; [reflexivity|]. split; [reflexivity|].
  assert (Hreach : reachable raidDisks
            [Row.Build "sdb" sdb 0; Row.Build "md0" md0 1; Row.Build "md0p1" md0p1 2;
             Row.Build "md0" md0 0; Row.Build "md0p1" md0p1 1]
            diskRemovedUnderArray).
  { eapply reachable_click.
    - eapply reachable_click; [apply reachable_initial|].
      eapply (@step_shrink _ (Row.Build "md0p1" md0p1 1) (Some true) _ 20);
        [simpl; tauto|reflexivity|reflexivity|reflexivity|reflexivity].
    - eapply (@step_remove _ (Row.Build "sdb" sdb 0) (Some true));
        [simpl; tauto|reflexivity|reflexivity|reflexivity]. }
  split; [exact Hreach|]. split; [reflexivity|]. split; [reflexivity|].
  exact (proj1 (@session_shrinks_partitions_to_proper_sizes
                  3 raidDisks raidSelection _ diskRemovedUnderArray
                  eq_refl eq_refl Hreach "md0p1" md0p1 _ (staged shrink (JsNum 20))
                  eq_refl eq_refl (or_introl eq_refl) eq_refl)).
Defined.

(** ** More on the two sums *)

Lemma filter_none {A : Type} (xs : list A) : filter (fun _ => false) xs = [].
Proof. induction xs; simpl; auto. Qed.

(** X8.  While nothing is staged (every sequence is empty) both sums
    are 0 on any snapshot, also on one with missing or cyclic parents:
    no device and no ancestor is looked up.  The footer then shows the
    free space of the disks as it is. *)
Theorem nothing_staged_reclaims_nothing :
  forall devices ledger,
    (forall name actions, lookup name ledger = Some actions -> actions = []) ->
    getReclaimableSpaceFromAction devices ledger remove = Some 0
    /\ getReclaimableSpaceFromAction devices ledger shrink = Some 0
    /\ forall isFormDisabled diskFreeSpace requiredSize,
        option_map Footer.availableFreeSpace
          (ReclaimFooter isFormDisabled devices diskFreeSpace requiredSize ledger)
        = Some diskFreeSpace.
Proof.
  intros devices ledger Hempty.
  assert (Hrem : forall device, In device (keys ledger) ->
            andNotParentRemoved devices ledger (isDeviceRemoved ledger) device
            = Some false).
  { intros device H. apply In_keys_lookup in H. destruct H as (actions & E).
    unfold andNotParentRemoved, isDeviceRemoved. rewrite E.
    rewrite (Hempty _ _ E). reflexivity. }
  assert (Hshr : forall device, In device (keys ledger) ->
            andNotParentRemoved devices ledger (isDeviceResized ledger) device
            = Some false).
  { intros device H. apply In_keys_lookup in H. destruct H as (actions & E).
    unfold andNotParentRemoved, isDeviceResized. rewrite E.
    rewrite (Hempty _ _ E). reflexivity. }
  assert (R : getReclaimableSpaceFromAction devices ledger remove = Some 0).
  { unfold getReclaimableSpaceFromAction.
    rewrite (filterM_pure _ (fun _ => false) (keys ledger) Hrem), filter_none.
    reflexivity. }
  assert (S : getReclaimableSpaceFromAction devices ledger shrink = Some 0).
  { unfold getReclaimableSpaceFromAction.
    rewrite (filterM_pure _ (fun _ => false) (keys ledger) Hshr), filter_none.
    reflexivity. }
  split; [exact R|]. split; [exact S|].
  intros isFormDisabled free required. unfold ReclaimFooter. rewrite R, S. simpl.
  f_equal. lia.
Qed.

Lemma nothing_staged_reclaims_nothing_witness :
  (forall name actions,
      lookup name (initialUnappliedActions selfNested) = Some actions -> actions = [])
  /\ getReclaimableSpaceFromAction selfNested (initialUnappliedActions selfNested) remove
     = Some 0.
Proof.
  assert (H : forall name actions,
             lookup name (initialUnappliedActions selfNested) = Some actions ->
             actions = []).
  { intros name actions. apply lookup_initialUnappliedActions. }
  split; [exact H|].
  exact (proj1 (@nothing_staged_reclaims_nothing selfNested
                  (initialUnappliedActions selfNested) H)).
Defined.

Lemma filterM_sum_bounds {A : Type} (p : A -> option bool) (g : A -> Z) xs :
  (forall x, 0 <= g x) ->
  forall selected, filterM p xs = Some selected ->
  0 <= sumZ (map g selected) <= sumZ (map g xs).
Proof.
  intros Hg. induction xs as [|x rest IH]; simpl; intros selected.
  - intros [= <-]. simpl. lia.
  - destruct (p x) as [b|]; simpl; [|discriminate].
    destruct (filterM p rest) as [kept|]; simpl; [|discriminate].
    intros [= <-]. specialize (IH kept eq_refl). specialize (Hg x).
    destruct b; simpl; lia.
Qed.

Lemma reduceM_addUsedSpace devices selected : forall init result,
  reduceM (addUsedSpace devices) selected init = Some result ->
  result = init + sumZ (map (usedBytes devices) selected).
Proof.
  induction selected as [|x rest IH]; simpl; intros init result.
  - intros [= <-]. lia.
  - unfold addUsedSpace at 1, usedBytes at 1, totalBytes, freeBytes.
    destruct (lookup x devices) as [d|]; simpl; [|discriminate].
    intros H. apply IH in H. lia.
Qed.

(** X9.  Where no device has more free than total bytes, the space
    reclaimed by removes is never negative and never more than the used
    space of all the devices the ledger has a key for. *)
Theorem removed_space_within_used_space :
  forall devices ledger reclaimed,
    (forall name device, lookup name devices = Some device ->
                         Device.free device <= Device.total device) ->
    getReclaimableSpaceFromAction devices ledger remove = Some reclaimed ->
    0 <= reclaimed <= sumZ (map (usedBytes devices) (keys ledger)).
Proof.
  intros devices ledger reclaimed Hfree. unfold getReclaimableSpaceFromAction.
  destruct (filterM _ (keys ledger)) as [selected|] eqn:F; simpl; [|discriminate].
  intros H. apply reduceM_addUsedSpace in H. subst reclaimed.
  apply (@filterM_sum_bounds _ _ (usedBytes devices)) in F; [lia|].
  intros name. unfold usedBytes, totalBytes, freeBytes.
  destruct (lookup name devices) as [d|] eqn:E; [|lia].
  specialize (Hfree _ _ E). lia.
Qed.

Lemma removed_space_within_used_space_witness :
  (forall name device, lookup name oneDisk = Some device ->
                       Device.free device <= Device.total device)
  /\ getReclaimableSpaceFromAction oneDisk bothRemoved remove = Some 80
  /\ 0 <= 80 <= sumZ (map (usedBytes oneDisk) (keys bothRemoved)).
Proof.
  assert (H : forall name device, lookup name oneDisk = Some device ->
                                  Device.free device <= Device.total device).
  { intros name device. unfold oneDisk. simpl.
    destruct (String.eqb name "sda"); [intros [= <-]; simpl; lia|].
    destruct (String.eqb name "sda1"); [intros [= <-]; simpl; lia|discriminate]. }
  split; [exact H|]. split; [reflexivity|].
  exact (@removed_space_within_used_space oneDisk bothRemoved 80 H eq_refl).
Defined.

(** X10.  On a snapshot in which every parent is a device, the footer
    is rendered in every state of a session: neither sum throws, and
    the number shown is the free space plus the two sums. *)
Theorem footer_renders_in_every_session_state :
  forall devices rows ledger isFormDisabled diskFreeSpace requiredSize,
    parentsClosed devices = true ->
    reachable devices rows ledger ->
    exists footer toDelete toShrink,
      ReclaimFooter isFormDisabled devices diskFreeSpace requiredSize ledger
      = Some footer
      /\ getReclaimableSpaceFromAction devices ledger remove = Some toDelete
      /\ getReclaimableSpaceFromAction devices ledger shrink = Some toShrink
      /\ Footer.availableFreeSpace footer = diskFreeSpace + (toDelete + toShrink).
Proof.
  intros devices rows ledger isFormDisabled free required Hclosed Hreach.
  pose proof (reachable_keys Hreach) as Hkeys.
  unfold ReclaimFooter.
  rewrite (remove_code_pure devices ledger Hkeys Hclosed).
  rewrite (shrink_code_pure devices ledger Hkeys Hclosed). simpl.
  eexists. eexists. eexists. repeat split.
Qed.

Lemma footer_renders_in_every_session_state_witness :
  parentsClosed raidDisks = true
  /\ reachable raidDisks raidRows diskRemovedUnderArray
  /\ exists footer,
       ReclaimFooter false raidDisks 30 120 diskRemovedUnderArray = Some footer
       /\ getReclaimableSpaceFromAction raidDisks diskRemovedUnderArray remove = Some 100
       /\ getReclaimableSpaceFromAction raidDisks diskRemovedUnderArray shrink = Some 0
       /\ Footer.availableFreeSpace footer = 130.
Proof.
  split; [reflexivity|]. split; [exact diskRemovedUnderArray_reachable|].
  destruct (@footer_renders_in_every_session_state raidDisks raidRows
              diskRemovedUnderArray false 30 120 eq_refl
              diskRemovedUnderArray_reachable)
    as (footer & toDelete & toShrink & Hfooter & Hdelete & Hshrink & Hshown).
  exists footer. split; [exact Hfooter|].
  assert (Ed : toDelete = 100) by (vm_compute in Hdelete; congruence).
  assert (Es : toShrink = 0) by (vm_compute in Hshrink; congruence).
  subst. split; [exact Hdelete|]. split; [exact Hshrink|]. exact Hshown.
Defined.

Lemma actionsOf_update_same ledger name f old :
  lookup name ledger = Some old -> actionsOf (update name f ledger) name = f old.
Proof. intros E. unfold actionsOf. now rewrite lookup_update_same, E. Qed.

Lemma actionsOf_update_other ledger name f other :
  other <> name -> actionsOf (update name f ledger) other = actionsOf ledger other.
Proof. intros H. unfold actionsOf. now rewrite lookup_update_other. Qed.

Lemma sum_changed_at_one_key (q q' : string -> bool) (g g' : string -> Z) name xs :
  NoDup xs -> In name xs ->
  (forall k, k <> name -> q' k = q k /\ g' k = g k) ->
  q name = false ->
  sumZ (map g' (filter q' xs))
  = sumZ (map g (filter q xs)) + (if q' name then g' name else 0).
Proof.
  intros Hnd Hin Hother Hold.
  assert (Hout : forall ys, ~ In name ys ->
            sumZ (map g' (filter q' ys)) = sumZ (map g (filter q ys))).
  { intros ys Hn. apply filter_map_ext.
    - intros k Hk. apply Hother. intros ->. contradiction.
    - intros k Hk _. apply Hother. intros ->. contradiction. }
  induction xs as [|x rest IH]; [destruct Hin|].
  inversion Hnd as [|? ? Hx Hrest]; subst. simpl.
  destruct (string_dec x name) as [->|Hne].
  - rewrite Hold. destruct (q' name); simpl; rewrite (Hout rest Hx); lia.
  - destruct (Hother x Hne) as [Hq Hg]. rewrite Hq.
    destruct Hin as [->|Hin]; [contradiction|].
    specialize (IH Hrest Hin). destruct (q x); simpl; rewrite ?Hg, IH; lia.
Qed.

(** X11.  Staging a shrink for a device with an empty sequence adds the
    total of the device minus the new size to the shrink sum, unless
    an ancestor of the device holds a remove: then the sum stays as it
    is.  The remove sum is the same before and after. *)
Theorem staged_shrink_adds_its_difference :
  forall devices ledger device value ledger',
    keys ledger = keys devices ->
    parentsClosed devices = true ->
    NoDup (keys ledger) ->
    lookup (Device.name device) ledger = Some [] ->
    onShrink device value ledger = Some ledger' ->
    exists before above,
      getReclaimableSpaceFromAction devices ledger shrink = Some before
      /\ isDeviceParentRemoved devices ledger (Device.name device) = Some above
      /\ getReclaimableSpaceFromAction devices ledger' shrink
         = Some (before + (if above then 0
                           else totalBytes devices (Device.name device) - value))
      /\ getReclaimableSpaceFromAction devices ledger' remove
         = getReclaimableSpaceFromAction devices ledger remove.
Proof.
  intros devices ledger device value ledger' Hkeys Hclosed Hnd Hempty Hstage.
  apply onAction_Some in Hstage. destruct Hstage as [Hkey ->].
  set (name := Device.name device) in *.
  set (ledger' := update name (push (Action.Build shrink (JsNum value))) ledger).
  assert (Hkeys' : keys ledger' = keys devices)
    by (unfold ledger'; now rewrite keys_update).
  assert (Hremove : forall k, hasAction ledger' remove k = hasAction ledger remove k).
  { intros k. unfold hasAction. destruct (string_dec k name) as [->|Hne].
    - unfold ledger'. rewrite (actionsOf_update_same _ _ _ Hempty).
      unfold actionsOf. rewrite Hempty. reflexivity.
    - unfold ledger'. now rewrite actionsOf_update_other. }
  assert (Habove : forall k,
            existsb (hasAction ledger' remove) (getDeviceAncestors devices k)
            = existsb (hasAction ledger remove) (getDeviceAncestors devices k)).
  { intros k. induction (getDeviceAncestors devices k) as [|a rest IH]; simpl;
      [reflexivity|]. now rewrite Hremove, IH. }
  exists (sumZ (map (allActionsBytes devices ledger)
                 (filter (hasShrinkBelowNoRemove devices ledger) (keys ledger)))),
         (existsb (hasAction ledger remove) (getDeviceAncestors devices name)).
  split; [now apply shrink_code_pure|].
  split; [now apply isDeviceParentRemoved_pure|]. split.
  - rewrite (shrink_code_pure devices ledger' Hkeys' Hclosed). f_equal.
    replace (keys ledger') with (keys ledger) by congruence.
    rewrite (@sum_changed_at_one_key
               (hasShrinkBelowNoRemove devices ledger)
               (hasShrinkBelowNoRemove devices ledger')
               (allActionsBytes devices ledger)
               (allActionsBytes devices ledger') name (keys ledger) Hnd Hkey).
    + f_equal. unfold hasShrinkBelowNoRemove, allActionsBytes, hasAction.
      unfold ledger' at 1 3.
      rewrite !(actionsOf_update_same _ _ _ Hempty). simpl.
      fold (hasAction ledger' remove). rewrite Habove.
      destruct (existsb _ _); simpl; lia.
    + intros k Hne. unfold hasShrinkBelowNoRemove, allActionsBytes, hasAction.
      fold (hasAction ledger' remove). fold (hasAction ledger remove).
      rewrite Habove. unfold ledger'.
      now rewrite !actionsOf_update_other by assumption.
    + unfold hasShrinkBelowNoRemove, hasAction, actionsOf. now rewrite Hempty.
  - rewrite (remove_code_pure devices ledger' Hkeys' Hclosed).
    rewrite (remove_code_pure devices ledger Hkeys Hclosed). f_equal.
    unfold reclaimedBytesRemove.
    replace (keys ledger') with (keys ledger) by congruence.
    apply filter_map_ext; [|reflexivity].
    intros k _. rewrite !countsAsRemoved_code. now rewrite Hremove, Habove.
Qed.

Lemma staged_shrink_adds_its_difference_witness :
  exists ledger',
    keys partitionRemoved = keys twoPartitions
    /\ parentsClosed twoPartitions = true
    /\ NoDup (keys partitionRemoved)
    /\ lookup (Device.name vda2) partitionRemoved = Some []
    /\ onShrink vda2 40 partitionRemoved = Some ledger'
    /\ getReclaimableSpaceFromAction twoPartitions partitionRemoved shrink = Some 0
    /\ getReclaimableSpaceFromAction twoPartitions ledger' shrink = Some 60.
Proof.
  assert (Hnd : NoDup (keys partitionRemoved)).
  { simpl. repeat constructor; simpl; intuition discriminate. }
  eexists. split; [reflexivity|]. split; [reflexivity|]. split; [exact Hnd|].
  split; [reflexivity|]. split; [reflexivity|]. split; [reflexivity|].
  destruct (@staged_shrink_adds_its_difference twoPartitions partitionRemoved vda2 40 _
              eq_refl eq_refl Hnd eq_refl eq_refl)
    as (before & above & Hbefore & Habove & Hafter & _).
  rewrite Hafter. vm_compute in Hbefore. vm_compute in Habove.
  injection Hbefore as <-. injection Habove as <-. reflexivity.
Defined.

(** ** More on confirmation *)

Section OnReclaimMore.
Variable Remote : Type.
Variable Payload : Type.
Variable removeDevice : string -> Remote -> Remote * option Payload.
Variable shrinkDevice : string -> JsValue -> Remote -> Remote * option Payload.

Lemma stagedCalls_empty ledger :
  (forall entry, In entry ledger -> snd entry = []) -> stagedCalls ledger = [].
Proof.
  induction ledger as [|[device actions] rest IH]; intros H; [reflexivity|].
  pose proof (H (device, actions) (or_introl eq_refl)) as E. simpl in E. subst actions.
  simpl. apply IH. intros entry He. apply H. now right.
Qed.

(** X12.  With nothing staged, [onReclaim] sends no call at all and
    sets [onNextClicked]; the remote side and a dialog error left from
    an earlier run stay as they are. *)
Theorem reclaim_with_nothing_staged_calls_nobody :
  forall (modal : Modal Payload) (w : World Remote),
    (forall entry, In entry (unappliedActions modal) -> snd entry = []) ->
    onReclaim removeDevice shrinkDevice modal w
    = (w, {| unappliedActions := unappliedActions modal;
             dialogError := dialogError modal;
             onNextClicked := true |}).
Proof.
  intros modal w Hempty. unfold onReclaim.
  rewrite forEntries_flat, (stagedCalls_empty _ Hempty). reflexivity.
Qed.

Lemma onReclaim_world (modal : Modal Payload) (w : World Remote) :
  fst (onReclaim removeDevice shrinkDevice modal w)
  = fst (forCalls removeDevice shrinkDevice (stagedCalls (unappliedActions modal)) w)
  /\ unappliedActions (snd (onReclaim removeDevice shrinkDevice modal w))
     = unappliedActions modal.
Proof.
  unfold onReclaim. rewrite forEntries_flat.
  now destruct (forCalls removeDevice shrinkDevice
                  (stagedCalls (unappliedActions modal)) w) as [w' [failure|]].
Qed.

Lemma forCalls_sends_first items (w : World Remote) :
  exists sent pending,
    items = sent ++ pending
    /\ received (fst (forCalls removeDevice shrinkDevice items w))
       = received w ++ map request sent
    /\ remote (fst (forCalls removeDevice shrinkDevice items w))
       = performAll removeDevice shrinkDevice sent (remote w)
    /\ (items <> [] -> sent <> []).
Proof.
  destruct (forCalls_performs removeDevice shrinkDevice items w)
    as (sent & pending & Hsplit & Hlog & Hremote & Hresult).
  exists sent, pending. split; [exact Hsplit|]. split; [exact Hlog|].
  split; [exact Hremote|].
  intros Hne Hsent. subst sent.
  destruct (snd (forCalls removeDevice shrinkDevice items w)) as [failure|].
  - destruct Hresult as (accepted & item & error & H & _).
    destruct accepted; discriminate H.
  - destruct Hresult as [-> _]. simpl in Hsplit. contradiction.
Qed.

(** X13.  [onReclaim] keeps no record of what the executor has
    accepted: a second run after the first (a retry after a failure, or
    a second click) begins again with the first staged action.  Each of
    the two runs sends the requests of a prefix of the staged actions
    and takes the executor through them; when something is staged,
    neither prefix is empty and both begin with the first staged
    action, which is so sent twice.  Where the answers of the executor
    do not depend on its state, the two prefixes are the same: every
    request of the first run is sent a second time. *)
Theorem reclaim_again_resends_from_the_start :
  forall (modal : Modal Payload) (w : World Remote),
    let staged := stagedCalls (unappliedActions modal) in
    let first := onReclaim removeDevice shrinkDevice modal w in
    let second := onReclaim removeDevice shrinkDevice (snd first) (fst first) in
    (exists sent1 pending1 sent2 pending2,
        staged = sent1 ++ pending1
        /\ staged = sent2 ++ pending2
        /\ received (fst first) = received w ++ map request sent1
        /\ received (fst second)
           = received w ++ map request sent1 ++ map request sent2
        /\ remote (fst second)
           = performAll removeDevice shrinkDevice sent2
               (performAll removeDevice shrinkDevice sent1 (remote w))
        /\ (staged <> [] -> sent1 <> [] /\ sent2 <> []
                            /\ hd_error sent1 = hd_error staged
                            /\ hd_error sent2 = hd_error staged))
    /\ (answersFixed removeDevice shrinkDevice ->
        exists sent pending,
          staged = sent ++ pending
          /\ received (fst first) = received w ++ map request sent
          /\ received (fst second)
             = received w ++ map request sent ++ map request sent
          /\ remote (fst second)
             = performAll removeDevice shrinkDevice sent
                 (performAll removeDevice shrinkDevice sent (remote w))).
Proof.
  intros modal w staged first second.
  destruct (onReclaim_world modal w) as [Hw1 Hledger].
  destruct (onReclaim_world (snd first) (fst first)) as [Hw2 _].
  fold first in Hw1, Hledger. fold second in Hw2.
  rewrite Hledger in Hw2. fold staged in Hw1, Hw2.
  split.
  - destruct (forCalls_sends_first staged w)
      as (sent1 & pending1 & Hs1 & Hlog1 & Hrem1 & Hne1).
    destruct (forCalls_sends_first staged (fst first))
      as (sent2 & pending2 & Hs2 & Hlog2 & Hrem2 & Hne2).
    rewrite <- Hw1 in Hlog1, Hrem1. rewrite <- Hw2 in Hlog2, Hrem2.
    exists sent1, pending1, sent2, pending2.
    split; [exact Hs1|]. split; [exact Hs2|]. split; [exact Hlog1|].
    split; [rewrite Hlog2, Hlog1, <- app_assoc; reflexivity|].
    split; [rewrite Hrem2, Hrem1; reflexivity|].
    intros Hne. specialize (Hne1 Hne). specialize (Hne2 Hne).
    split; [exact Hne1|]. split; [exact Hne2|].
    destruct sent1; [contradiction|]. destruct sent2; [contradiction|].
    split; [rewrite Hs1|rewrite Hs2]; reflexivity.
  - intros Hfixed.
    destruct (@forCalls_same_prefix _ _ removeDevice shrinkDevice staged Hfixed
                w (fst first))
      as (sent & pending & Hsplit & Hlog1 & Hlog2 & Hrem1 & Hrem2).
    rewrite <- Hw1 in Hlog1, Hrem1. rewrite <- Hw2 in Hlog2, Hrem2.
    exists sent, pending. split; [exact Hsplit|]. split; [exact Hlog1|].
    split; [rewrite Hlog2, Hlog1, <- app_assoc; reflexivity|].
    rewrite Hrem2, Hrem1. reflexivity.
Qed.
End OnReclaimMore.

Lemma reclaim_with_nothing_staged_calls_nobody_witness :
  let modal := {| unappliedActions := initialUnappliedActions oneDisk;
                  dialogError := @None (DialogError string);
                  onNextClicked := false |} in
  (forall entry, In entry (unappliedActions modal) -> snd entry = [])
  /\ fst (onReclaim countingRemove countingShrink modal
            {| remote := 0%nat; received := [] |})
     = {| remote := 0%nat; received := [] |}.
Proof.
  intros modal.
  assert (H : forall entry, In entry (unappliedActions modal) -> snd entry = []).
  { intros entry [<-|[<-|[]]]; reflexivity. }
  split; [exact H|].
  rewrite (@reclaim_with_nothing_staged_calls_nobody nat string
             countingRemove countingShrink modal _ H).
  reflexivity.
Defined.

Lemma reclaim_again_resends_from_the_start_witness :
  let modal := {| unappliedActions := threeStaged;
                  dialogError := @None (DialogError string);
                  onNextClicked := false |} in
  let start := {| remote := 0%nat; received := [] |} in
  let first := onReclaim countingRemove countingShrink modal start in
  let second := onReclaim countingRemove countingShrink (snd first) (fst first) in
  answersFixed countingRemove countingShrink
  /\ exists sent pending,
       stagedCalls threeStaged = sent ++ pending
       /\ received (fst first) = map request sent
       /\ received (fst second) = map request sent ++ map request sent.
Proof.
  intros modal start first second.
  assert (Hfixed : answersFixed countingRemove countingShrink).
  { intros [device [[|] value]] state state'; simpl; [reflexivity|].
    unfold countingShrink. now destruct (toNumber value <? 10). }
  split; [exact Hfixed|].
  destruct (proj2 (@reclaim_again_resends_from_the_start nat string
                     countingRemove countingShrink modal start) Hfixed)
    as (sent & pending & Hsplit & Hfirst & Hsecond & _).
  exists sent, pending. split; [exact Hsplit|]. split; [exact Hfirst|exact Hsecond].
Defined.

(** The two runs of that session, call by call. *)
Example reclaim_twice_sends_the_accepted_call_twice :
  let modal := {| unappliedActions := threeStaged;
                  dialogError := @None (DialogError string);
                  onNextClicked := false |} in
  let first := onReclaim countingRemove countingShrink modal
                 {| remote := 0%nat; received := [] |} in
  fst (onReclaim countingRemove countingShrink (snd first) (fst first))
  = {| remote := 2%nat;
       received := [CallRemoveDevice "vda1"; CallShrinkDevice "vda2" (JsNum 5);
                    CallRemoveDevice "vda1"; CallShrinkDevice "vda2" (JsNum 5)] |}.
Proof. reflexivity. Qed.

(** ** The call of [onNext] *)

Section OnNextEffectFacts.
Variable Remote : Type.
Variable Payload : Type.
Variable removeDevice : string -> Remote -> Remote * option Payload.
Variable shrinkDevice : string -> JsValue -> Remote -> Remote * option Payload.


End OnNextEffectFacts.


(** ** More on the shrink popover *)

Local Open Scope Q_scope.

Lemma round_integer (z : Z) : round (inject_Z z) = z.
Proof.
  assert (H : (z <= round (inject_Z z) <= z)%Z)
    by (apply round_between; apply Qle_refl).
  lia.
Qed.

Lemma round_comp x y : x == y -> round x = round y.
Proof. intros E. unfold round. apply Qfloor_comp. now rewrite E. Qed.

(** X16.  "Resize" is disabled at both ends: when the popover opens
    (the value is the size of the device), when the slider is put to 0
    or to 100, and when the typed size is 0 or is the size of the
    device or more, which is cut down to the size of the device. *)
Theorem resize_disabled_at_both_ends :
  forall total unit slider typed value,
    (0 <= total)%Z ->
    resizeIsDisabled total (inject_Z total) = true
    /\ resizeIsDisabled total (onChange total unit (Some 0) None value) = true
    /\ resizeIsDisabled total (onChange total unit (Some 100) None value) = true
    /\ (typed * unit == 0 ->
        resizeIsDisabled total (onChange total unit slider (Some typed) value) = true)
    /\ (inject_Z total <= typed * unit ->
        onChange total unit slider (Some typed) value == inject_Z total
        /\ resizeIsDisabled total (onChange total unit slider (Some typed) value) = true).
Proof.
  intros total unit slider typed value Htotal.
  assert (Ht : 0 <= inject_Z total)
    by (change 0 with (inject_Z 0); now rewrite <- Zle_Qle).
  assert (Hfull : forall v, v == inject_Z total -> resizeIsDisabled total v = true).
  { intros v E. unfold resizeIsDisabled.
    rewrite (proj2 (Qeq_bool_iff v (inject_Z total)) E). apply orb_true_r. }
  assert (Hzero : forall v, v == 0 -> resizeIsDisabled total v = true).
  { intros v E. unfold resizeIsDisabled.
    now rewrite (proj2 (Qeq_bool_iff v 0) E). }
  split; [apply Hfull; reflexivity|]. split; [|split; [|split]].
  - apply Hzero. simpl.
    rewrite (@round_comp (0 / 100 * inject_Z total) (inject_Z 0)) by (simpl; field).
    now rewrite round_integer.
  - apply Hfull. simpl.
    rewrite (@round_comp (100 / 100 * inject_Z total) (inject_Z total)) by field.
    now rewrite round_integer.
  - intros E. apply Hzero. simpl. rewrite E. apply Q.min_r. exact Ht.
  - intros Hle.
    assert (E : onChange total unit slider (Some typed) value == inject_Z total)
      by (simpl; now apply Q.min_l).
    split; [exact E|now apply Hfull].
Qed.

Lemma resize_disabled_at_both_ends_witness :
  (0 <= 80)%Z
  /\ inject_Z 80 <= (3 # 1) * (1000 # 1)
  /\ resizeIsDisabled 80 (onChange 80 (1000 # 1) None (Some (3 # 1)) 80) = true.
Proof.
  assert (Hle : inject_Z 80 <= (3 # 1) * (1000 # 1)) by discriminate.
  assert (Htotal : (0 <= 80)%Z) by lia.
  split; [exact Htotal|]. split; [exact Hle|].
  exact (proj2 (proj2 (proj2 (proj2 (proj2 (@resize_disabled_at_both_ends
           80 (1000 # 1) None (3 # 1) 80 Htotal)))) Hle)).
Defined.

(** X17.  Neither input can turn the order of two sizes around: a
    larger slider position never gives a smaller value, and with a
    unit that is not negative a larger typed size never does. *)
Theorem popover_inputs_are_monotone :
  forall total unit value low high,
    (0 <= total)%Z -> 0 <= unit -> low <= high ->
    onChange total unit (Some low) None value
    <= onChange total unit (Some high) None value
    /\ onChange total unit None (Some low) value
       <= onChange total unit None (Some high) value.
Proof.
  intros total unit value low high Htotal Hunit Hle.
  assert (Ht : 0 <= inject_Z total)
    by (change 0 with (inject_Z 0); now rewrite <- Zle_Qle).
  split; simpl.
  - rewrite <- Zle_Qle. unfold round. apply Qfloor_resp_le.
    apply Qplus_le_l. apply Qmult_le_compat_r; [|exact Ht].
    unfold Qdiv. apply Qmult_le_compat_r; [exact Hle|discriminate].
  - apply Q.min_le_compat_l. now apply Qmult_le_compat_r.
Qed.

Lemma popover_inputs_are_monotone_witness :
  (0 <= 80)%Z /\ 0 <= 1 /\ (25 # 1) <= (50 # 1)
  /\ onChange 80 1 (Some (25 # 1)) None 80 <= onChange 80 1 (Some (50 # 1)) None 80.
Proof.
  assert (H1 : 0 <= 1) by discriminate.
  assert (H2 : (25 # 1) <= (50 # 1)) by discriminate.
  assert (Htotal : (0 <= 80)%Z) by lia.
  split; [exact Htotal|]. split; [exact H1|]. split; [exact H2|].
  exact (proj1 (@popover_inputs_are_monotone 80 1 80 (25 # 1) (50 # 1)
                  Htotal H1 H2)).
Defined.

Local Close Scope Q_scope.

(** ** More on the rows *)

Lemma filter_deeper level rows :
  (forall row, In row rows -> (S level <= Row.level row)%nat) ->
  filter (atLevel level) rows = [].
Proof.
  induction rows as [|row rest IH]; intros H; simpl; [reflexivity|].
  unfold atLevel at 1.
  destruct (Nat.eqb_spec (Row.level row) level) as [E|_].
  - specialize (H row (or_introl eq_refl)). lia.
  - apply IH. intros r Hr. apply H. now right.
Qed.

Lemma getDeviceRow_head devices fuel disk level rows :
  getDeviceRow fuel devices disk level = Some rows ->
  exists device,
    lookup disk devices = Some device
    /\ filter (atLevel level) rows = [Row.Build disk device level].
Proof.
  intros H. destruct fuel as [|fuel]; simpl in H; [discriminate|].
  destruct (lookup disk devices) as [device|] eqn:E; simpl in H; [|discriminate].
  destruct (hasLeafClass devices disk device) as [leaf|]; simpl in H; [|discriminate].
  destruct (mapM _ (Device.children device)) as [below|] eqn:M; simpl in H;
    [|discriminate].
  injection H as <-. exists device. split; [reflexivity|].
  simpl. unfold atLevel at 1. simpl. rewrite Nat.eqb_refl. f_equal.
  apply filter_deeper. intros row Hrow.
  destruct (@mapM_In _ _ _ _ _ _ M Hrow) as (child & rows' & _ & Hrows & Hin).
  destruct (@getDeviceRow_rows _ _ _ _ _ _ Hrows Hin) as (_ & Hlevel & _).
  exact Hlevel.
Qed.

(** X18.  The rows at level 0 are the selected disks, one row for each
    entry of the selection and in the order of the selection. *)
Theorem top_rows_are_the_selected_disks :
  forall fuel devices selectedDisks rows,
    getRows fuel devices selectedDisks = Some rows ->
    map Row.key (filter (atLevel 0) rows) = selectedDisks
    /\ forall row, In row (filter (atLevel 0) rows) ->
                   lookup (Row.key row) devices = Some (Row.device row).
Proof.
  intros fuel devices selectedDisks rows H.
  split.
  - revert rows H. unfold getRows.
    induction selectedDisks as [|disk rest IH]; intros rows; simpl.
    + intros [= <-]. reflexivity.
    + destruct (getDeviceRow fuel devices disk 0) as [first|] eqn:E; simpl;
        [|discriminate].
      destruct (mapM _ rest) as [nested|]; simpl; [|discriminate].
      intros [= <-]. simpl. rewrite filter_app, map_app.
      destruct (@getDeviceRow_head _ _ _ _ _ E) as (device & _ & ->). simpl.
      f_equal. now apply IH.
  - intros row Hrow. apply filter_In in Hrow. destruct Hrow as [Hrow _].
    now destruct (@getRows_rows _ _ _ _ _ H Hrow).
Qed.

Lemma top_rows_are_the_selected_disks_witness :
  exists rows,
    getRows 3 raidDisks raidSelection = Some rows
    /\ map Row.key (filter (atLevel 0) rows) = ["sdb"; "md0"].
Proof.
  eexists. split; [reflexivity|].
  exact (proj1 (@top_rows_are_the_selected_disks 3 raidDisks raidSelection _ eq_refl)).
Defined.

Lemma mapM_defined {A B : Type} (f : A -> option B) xs ys x :
  mapM f xs = Some ys -> In x xs -> exists y, f x = Some y /\ In y ys.
Proof.
  revert ys. induction xs as [|a rest IH]; intros ys; simpl; [intros _ []|].
  destruct (f a) as [b|] eqn:E; simpl; [|discriminate].
  destruct (mapM f rest) as [bs|]; simpl; [|discriminate].
  intros [= <-] [->|H].
  - exists b. split; [exact E|now left].
  - destruct (IH bs eq_refl H) as (y & Hy & Hin). exists y. split; [exact Hy|now right].
Qed.

Lemma getDeviceRow_first devices fuel disk level rows :
  getDeviceRow fuel devices disk level = Some rows ->
  exists device, lookup disk devices = Some device
                 /\ In (Row.Build disk device level) rows.
Proof.
  intros H. destruct fuel as [|fuel]; simpl in H; [discriminate|].
  destruct (lookup disk devices) as [device|]; simpl in H; [|discriminate].
  destruct (hasLeafClass devices disk device) as [leaf|]; simpl in H; [|discriminate].
  destruct (mapM _ (Device.children device)); simpl in H; [|discriminate].
  injection H as <-. exists device. split; [reflexivity|now left].
Qed.

Lemma getDeviceRow_subtree devices fuel : forall disk level rows row child,
  getDeviceRow fuel devices disk level = Some rows ->
  In row rows -> In child (Device.children (Row.device row)) ->
  exists below,
    lookup child devices = Some below
    /\ In (Row.Build child below (S (Row.level row))) rows.
Proof.
  induction fuel as [|fuel IH]; intros disk level rows row child; simpl; [discriminate|].
  destruct (lookup disk devices) as [device|] eqn:E; simpl; [|discriminate].
  destruct (hasLeafClass devices disk device) as [leaf|]; simpl; [|discriminate].
  destruct (mapM _ (Device.children device)) as [nested|] eqn:M; simpl; [|discriminate].
  intros [= <-] [<-|Hrow] Hchild.
  - simpl in *. destruct (@mapM_defined _ _ _ _ _ _ M Hchild) as (rows' & Hrows & Hin).
    destruct (@getDeviceRow_first _ _ _ _ _ Hrows) as (below & Hbelow & Hfirst).
    exists below. split; [exact Hbelow|]. right.
    apply in_concat. exists rows'. auto.
  - destruct (@mapM_In _ _ _ _ _ _ M Hrow) as (c & rows' & Hc & Hrows & Hin).
    destruct (IH _ _ _ _ _ Hrows Hin Hchild) as (below & Hbelow & Hb).
    exists below. split; [exact Hbelow|]. right.
    apply in_concat. exists rows'.
    split; [|exact Hb].
    destruct (@mapM_defined _ _ _ _ _ _ M Hc) as (rows'' & Hrows'' & Hin'').
    rewrite Hrows in Hrows''. injection Hrows'' as <-. exact Hin''.
Qed.

(** X19.  A table that could be built holds whole subtrees: every
    selected disk has its row, and every child that the device of a row
    lists has a row one level deeper.  All these names are devices of
    the snapshot; a selected disk that is none makes the build throw. *)
Theorem table_holds_whole_subtrees :
  forall fuel devices selectedDisks,
    (forall rows,
        getRows fuel devices selectedDisks = Some rows ->
        (forall disk, In disk selectedDisks ->
                      exists device, lookup disk devices = Some device
                                     /\ In (Row.Build disk device 0) rows)
        /\ forall row child,
            In row rows -> In child (Device.children (Row.device row)) ->
            exists below,
              lookup child devices = Some below
              /\ In (Row.Build child below (S (Row.level row))) rows)
    /\ forall disk,
        In disk selectedDisks -> lookup disk devices = None ->
        getRows fuel devices selectedDisks = None.
Proof.
  intros fuel devices selectedDisks.
  assert (Hbuilt : forall rows,
            getRows fuel devices selectedDisks = Some rows ->
            (forall disk, In disk selectedDisks ->
                          exists device, lookup disk devices = Some device
                                         /\ In (Row.Build disk device 0) rows)
            /\ forall row child,
                In row rows -> In child (Device.children (Row.device row)) ->
                exists below,
                  lookup child devices = Some below
                  /\ In (Row.Build child below (S (Row.level row))) rows).
  { intros rows. unfold getRows.
    destruct (mapM _ selectedDisks) as [nested|] eqn:M; simpl; [|discriminate].
    intros [= <-]. split.
    - intros disk Hdisk. destruct (@mapM_defined _ _ _ _ _ _ M Hdisk) as (rows' & Hrows & Hin).
      destruct (@getDeviceRow_first _ _ _ _ _ Hrows) as (device & Hdev & Hfirst).
      exists device. split; [exact Hdev|]. apply in_concat. exists rows'. auto.
    - intros row child Hrow Hchild.
      destruct (@mapM_In _ _ _ _ _ _ M Hrow) as (disk & rows' & Hdisk & Hrows & Hin).
      destruct (@getDeviceRow_subtree _ _ _ _ _ _ _ Hrows Hin Hchild)
        as (below & Hbelow & Hb).
      exists below. split; [exact Hbelow|]. apply in_concat. exists rows'.
      split; [|exact Hb].
      destruct (@mapM_defined _ _ _ _ _ _ M Hdisk) as (rows'' & Hrows'' & Hin'').
      rewrite Hrows in Hrows''. injection Hrows'' as <-. exact Hin''. }
  split; [exact Hbuilt|].
  intros disk Hdisk Hmissing.
  destruct (getRows fuel devices selectedDisks) as [rows|] eqn:E; [|reflexivity].
  destruct (proj1 (Hbuilt rows eq_refl) disk Hdisk) as (device & Hdev & _).
  congruence.
Qed.

Lemma table_holds_whole_subtrees_witness :
  exists rows,
    getRows 3 raidDisks ["sdb"] = Some rows
    /\ In (Row.Build "md0" md0 1) rows
    /\ In "md0p1" (Device.children md0)
    /\ In (Row.Build "md0p1" md0p1 2) rows
    /\ In "sdc" ["sdb"; "sdc"]
    /\ lookup "sdc" raidDisks = None
    /\ getRows 3 raidDisks ["sdb"; "sdc"] = None.
Proof.
  assert (Hsdc : In "sdc" ["sdb"; "sdc"]) by (simpl; tauto).
  eexists. split; [reflexivity|]. split; [simpl; tauto|].
  split; [simpl; tauto|]. split; [simpl; tauto|].
  split; [exact Hsdc|]. split; [reflexivity|].
  exact (proj2 (table_holds_whole_subtrees 3 raidDisks ["sdb"; "sdc"])
           "sdc" Hsdc eq_refl).
Defined.

Lemma getDeviceRow_child devices fuel disk level rows child :
  getDeviceRow (S fuel) devices disk level = Some rows ->
  In child (childrenOf devices disk) ->
  exists rows', getDeviceRow fuel devices child (S level) = Some rows'.
Proof.
  simpl. unfold childrenOf.
  destruct (lookup disk devices) as [device|]; simpl; [|discriminate].
  destruct (hasLeafClass devices disk device) as [leaf|]; simpl; [|discriminate].
  destruct (mapM _ (Device.children device)) as [nested|] eqn:M; simpl; [|discriminate].
  intros _ Hchild.
  destruct (@mapM_defined _ _ _ _ _ _ M Hchild) as (rows' & Hrows & _). eauto.
Qed.

Lemma getDeviceRow_descend devices x y :
  reaches (childrenOf devices) x y ->
  forall fuel level rows,
    getDeviceRow fuel devices x level = Some rows ->
    exists fuel' level' rows',
      (fuel' < fuel)%nat /\ getDeviceRow fuel' devices y level' = Some rows'.
Proof.
  induction 1 as [x y Hxy|x y z Hxy _ IH]; intros fuel level rows Hrows.
  - destruct fuel as [|fuel]; [discriminate|].
    destruct (@getDeviceRow_child _ _ _ _ _ _ Hrows Hxy) as (rows' & H).
    exists fuel, (S level), rows'. split; [lia|exact H].
  - destruct fuel as [|fuel]; [discriminate|].
    destruct (@getDeviceRow_child _ _ _ _ _ _ Hrows Hxy) as (rows' & H).
    destruct (IH _ _ _ H) as (fuel' & level' & rows'' & Hlt & H').
    exists fuel', level', rows''. split; [lia|exact H'].
Qed.

Lemma getDeviceRow_cycle devices x :
  reaches (childrenOf devices) x x ->
  forall fuel level, getDeviceRow fuel devices x level = None.
Proof.
  intros Hcycle fuel. induction fuel as [fuel IH] using lt_wf_ind. intros level.
  destruct (getDeviceRow fuel devices x level) as [rows|] eqn:E; [|reflexivity].
  destruct (@getDeviceRow_descend _ _ _ Hcycle _ _ _ E) as (fuel' & level' & rows' & Hlt & H).
  rewrite (IH fuel' Hlt level') in H. discriminate.
Qed.

(** X20.  The table cannot be built when a device under a selected disk
    is found again among its own descendants: however deep the
    recursion of [getDeviceRow] is allowed to go, it does not come to
    an end. *)
Theorem table_of_cyclic_children_is_never_built :
  forall devices selectedDisks disk device,
    In disk selectedDisks ->
    device = disk \/ reaches (childrenOf devices) disk device ->
    reaches (childrenOf devices) device device ->
    forall fuel, getRows fuel devices selectedDisks = None.
Proof.
  intros devices selectedDisks disk device Hdisk Hunder Hcycle fuel.
  assert (Hnone : getDeviceRow fuel devices disk 0 = None).
  { destruct Hunder as [->|Hreach]; [now apply getDeviceRow_cycle|].
    destruct (getDeviceRow fuel devices disk 0) as [rows|] eqn:E; [|reflexivity].
    destruct (@getDeviceRow_descend _ _ _ Hreach _ _ _ E) as (fuel' & level' & rows' & _ & H).
    rewrite (@getDeviceRow_cycle _ _ Hcycle fuel' level') in H. discriminate. }
  unfold getRows.
  destruct (mapM _ selectedDisks) as [nested|] eqn:M; [|reflexivity].
  destruct (@mapM_defined _ _ _ _ _ _ M Hdisk) as (rows & Hrows & _).
  congruence.
Qed.

Lemma table_of_cyclic_children_is_never_built_witness :
  In "loop0" ["loop0"]
  /\ reaches (childrenOf selfNested) "loop0" "loop0"
  /\ forall fuel, getRows fuel selfNested ["loop0"] = None.
Proof.
  assert (Hin : In "loop0" ["loop0"]) by (simpl; tauto).
  assert (Hcycle : reaches (childrenOf selfNested) "loop0" "loop0")
    by (apply reaches_step; simpl; tauto).
  split; [exact Hin|]. split; [exact Hcycle|].
  exact (@table_of_cyclic_children_is_never_built selfNested ["loop0"] "loop0" "loop0"
           Hin (or_introl eq_refl) Hcycle).
Defined.

Lemma mapM_total {A B : Type} (f : A -> option B) xs :
  (forall x, In x xs -> exists y, f x = Some y) -> exists ys, mapM f xs = Some ys.
Proof.
  induction xs as [|x rest IH]; intros H; simpl; [eauto|].
  destruct (H x (or_introl eq_refl)) as (y & ->). simpl.
  destruct IH as (ys & ->); [intros z Hz; apply H; now right|]. simpl. eauto.
Qed.

Lemma mapM_ext_Some {A B : Type} (f g : A -> option B) xs : forall ys,
  (forall x y, In x xs -> f x = Some y -> g x = Some y) ->
  mapM f xs = Some ys -> mapM g xs = Some ys.
Proof.
  induction xs as [|x rest IH]; intros ys H; simpl; [auto|].
  destruct (f x) as [y|] eqn:E; simpl; [|discriminate].
  destruct (mapM f rest) as [zs|] eqn:M; simpl; [|discriminate].
  intros [= <-]. rewrite (H x y (or_introl eq_refl) E). simpl.
  rewrite (IH zs); [reflexivity| |reflexivity].
  intros z w Hz. apply H. now right.
Qed.

Lemma getDeviceRow_S devices fuel disk level :
  getDeviceRow (S fuel) devices disk level
  = (device <- lookup disk devices ;;
     leaf <- hasLeafClass devices disk device ;;
     below <- mapM (fun child => getDeviceRow fuel devices child (S level))
                   (Device.children device) ;;
     Some (Row.Build disk device level :: List.concat below)).
Proof. reflexivity. Qed.

Lemma getDeviceRow_more_fuel devices fuel : forall disk level rows,
  getDeviceRow fuel devices disk level = Some rows ->
  getDeviceRow (S fuel) devices disk level = Some rows.
Proof.
  induction fuel as [|fuel IH]; intros disk level rows; [discriminate|].
  rewrite (getDeviceRow_S devices (S fuel)), (getDeviceRow_S devices fuel).
  destruct (lookup disk devices) as [device|]; [|discriminate].
  unfold bind at 1 4.
  destruct (hasLeafClass devices disk device) as [leaf|]; [|discriminate].
  unfold bind at 1 3.
  destruct (mapM (fun child => getDeviceRow fuel devices child (S level))
              (Device.children device)) as [below|] eqn:M; [|discriminate].
  rewrite (@mapM_ext_Some _ _ _
             (fun child => getDeviceRow (S fuel) devices child (S level)) _ below
             (fun x y _ Hx => IH x (S level) y Hx) M).
  trivial.
Qed.

Lemma hasLeafClass_defined devices disk device :
  parentsClosed devices = true -> lookup disk devices = Some device ->
  exists leaf, hasLeafClass devices disk device = Some leaf.
Proof.
  intros Hclosed Hdev. unfold hasLeafClass, isLastChild.
  destruct (List.length (Device.children device) =? 0)%nat; [|eauto].
  destruct (Device.parents device) as [|first rest] eqn:Hparents; [eauto|].
  destruct (String.eqb first ""); [eauto|]. unfold member.
  assert (Hkey : In first (keys devices)).
  { apply (@forallb_isSome_keys _ devices (parentNames devices)); [exact Hclosed|].
    apply (@parents_in_parentNames devices disk device Hdev). rewrite Hparents. now left. }
  apply In_keys_lookup in Hkey. destruct Hkey as (parent & ->). eauto.
Qed.

(** X21.  On a snapshot in which every named parent is a device and
    whose children lead downwards (there is a depth that falls from
    every device to each child it lists) and are all devices, the table
    of selected devices is built, and it is the same table however much
    deeper the recursion is allowed to go. *)
Theorem table_is_built_for_trees :
  forall devices selectedDisks (depth : string -> nat) fuel,
    parentsClosed devices = true ->
    (forall name device child,
        lookup name devices = Some device -> In child (Device.children device) ->
        (depth child < depth name)%nat /\ lookup child devices <> None) ->
    (forall disk, In disk selectedDisks ->
                  lookup disk devices <> None /\ (depth disk < fuel)%nat) ->
    exists rows,
      getRows fuel devices selectedDisks = Some rows
      /\ forall more, getRows (more + fuel) devices selectedDisks = Some rows.
Proof.
  intros devices selectedDisks depth fuel Hclosed Hdown Hsel.
  assert (Hrow : forall fuel name level,
            (depth name < fuel)%nat -> lookup name devices <> None ->
            exists rows, getDeviceRow fuel devices name level = Some rows).
  { clear fuel Hsel. induction fuel as [|fuel IH]; intros name level Hlt Hdev; [lia|].
    rewrite getDeviceRow_S.
    destruct (lookup name devices) as [device|] eqn:E; [|contradiction].
    unfold bind at 1.
    destruct (@hasLeafClass_defined devices name device Hclosed E) as (leaf & ->).
    unfold bind at 1.
    destruct (@mapM_total _ _
                (fun child => getDeviceRow fuel devices child (S level))
                (Device.children device)) as (below & ->).
    - intros child Hchild. destruct (Hdown _ _ _ E Hchild) as [Hd Hc].
      apply IH; [lia|exact Hc].
    - simpl. eauto. }
  unfold getRows.
  destruct (@mapM_total _ _ (fun disk => getDeviceRow fuel devices disk 0)
              selectedDisks) as (nested & M).
  { intros disk Hdisk. destruct (Hsel disk Hdisk). now apply Hrow. }
  exists (List.concat nested). rewrite M. split; [reflexivity|].
  assert (Hmore : forall more,
            mapM (fun disk => getDeviceRow (more + fuel) devices disk 0) selectedDisks
            = Some nested).
  { induction more as [|more IH]; [exact M|].
    exact (@mapM_ext_Some _ _
             (fun disk => getDeviceRow (more + fuel) devices disk 0)
             (fun disk => getDeviceRow (S (more + fuel)) devices disk 0)
             selectedDisks nested
             (fun x y _ Hx => @getDeviceRow_more_fuel _ _ _ _ _ Hx) IH). }
  intros more. now rewrite Hmore.
Qed.

Lemma table_is_built_for_trees_witness :
  parentsClosed raidDisks = true
  /\ (forall name device child,
         lookup name raidDisks = Some device -> In child (Device.children device) ->
         (raidDepth child < raidDepth name)%nat /\ lookup child raidDisks <> None)
  /\ (forall disk, In disk ["sdb"] ->
                   lookup disk raidDisks <> None /\ (raidDepth disk < 3)%nat)
  /\ exists rows, getRows 3 raidDisks ["sdb"] = Some rows
                  /\ getRows 7 raidDisks ["sdb"] = Some rows.
Proof.
  assert (Hclosed : parentsClosed raidDisks = true) by reflexivity.
  assert (Hdown : forall name device child,
            lookup name raidDisks = Some device -> In child (Device.children device) ->
            (raidDepth child < raidDepth name)%nat /\ lookup child raidDisks <> None).
  { intros name device child. unfold raidDisks. simpl.
    destruct (String.eqb_spec name "sdb") as [->|_].
    - intros [= <-] [<-|[]]. split; [vm_compute; lia|discriminate].
    - destruct (String.eqb_spec name "md0") as [->|_].
      + intros [= <-] [<-|[]]. split; [vm_compute; lia|discriminate].
      + destruct (String.eqb_spec name "md0p1") as [->|_]; [|discriminate].
        intros [= <-] []. }
  assert (Hsel : forall disk, In disk ["sdb"] ->
                   lookup disk raidDisks <> None /\ (raidDepth disk < 3)%nat).
  { intros disk [<-|[]]. split; [discriminate|vm_compute; lia]. }
  split; [exact Hclosed|]. split; [exact Hdown|]. split; [exact Hsel|].
  destruct (@table_is_built_for_trees raidDisks ["sdb"] raidDepth 3 Hclosed Hdown Hsel)
    as (rows & Hrows & Hmore).
  exists rows. split; [exact Hrows|exact (Hmore 4%nat)].
Defined.

(** ** The class of the last child *)

Lemma findIndex_found (x : string) xs :
  In x xs -> 0 <= findIndex (fun child => String.eqb child x) xs.
Proof.
  induction xs as [|a rest IH]; simpl; [tauto|].
  destruct (String.eqb_spec a x) as [->|Hne]; [lia|].
  intros [E|H]; [contradiction|]. specialize (IH H).
  destruct (Z.eqb_spec (findIndex (fun child => String.eqb child x) rest) (-1)); lia.
Qed.

Lemma findIndex_last (x d : string) xs :
  NoDup xs -> In x xs ->
  (findIndex (fun child => String.eqb child x) xs = Z.of_nat (List.length xs) - 1
   <-> last xs d = x).
Proof.
  induction xs as [|a rest IH]; intros Hnd Hin; [destruct Hin|].
  inversion Hnd as [|? ? Ha Hrest]; subst.
  cbn [findIndex]. destruct (String.eqb_spec a x) as [->|Hne].
  - destruct rest as [|b rest']; [simpl; split; [reflexivity|lia]|].
    split.
    + intros H. simpl List.length in H. lia.
    + intros H. exfalso. apply Ha. rewrite <- H.
      change (last (x :: b :: rest') d) with (last (b :: rest') d).
      apply last_In_nonempty. discriminate.
  - destruct Hin as [E|Hin]; [contradiction|].
    pose proof (findIndex_found _ _ Hin) as Hfound.
    specialize (IH Hrest Hin).
    destruct (Z.eqb_spec (findIndex (fun child => String.eqb child x) rest) (-1));
      [lia|].
    destruct rest as [|b rest']; [destruct Hin|].
    change (last (a :: b :: rest') d) with (last (b :: rest') d).
    rewrite <- IH. simpl List.length. lia.
Qed.

(** X22.  The class of a leaf goes to the last child only.  A device
    with children never gets it.  A device without children always gets
    it when it names no parent, or when the first parent it names is
    the empty string or a name that [devices] has no property for,
    neither of its own nor inherited.  Where the first parent is no key
    of [devices] but the name of a member of [Object.prototype], working
    out the class throws.  And where the first parent is a device that
    lists its children once each, a childless child gets the class
    exactly when it is the last one listed. *)
Theorem leaf_class_marks_the_last_child :
  forall devices disk device,
    (Device.children device <> [] -> hasLeafClass devices disk device = Some false)
    /\ (Device.children device = [] ->
        (Device.parents device = []
         \/ exists first rest, Device.parents device = first :: rest
                               /\ (first = ""
                                   \/ (lookup first devices = None
                                       /\ inherited first = false))) ->
        hasLeafClass devices disk device = Some true)
    /\ (forall first rest,
           Device.children device = [] ->
           Device.parents device = first :: rest ->
           lookup first devices = None -> inherited first = true ->
           hasLeafClass devices disk device = None)
    /\ (forall first rest parent,
           Device.children device = [] ->
           Device.parents device = first :: rest -> first <> "" ->
           lookup first devices = Some parent ->
           NoDup (Device.children parent) -> In disk (Device.children parent) ->
           exists leaf,
             hasLeafClass devices disk device = Some leaf
             /\ (leaf = true <-> last (Device.children parent) "" = disk)).
Proof.
  intros devices disk device. unfold hasLeafClass, isLastChild, member.
  split; [|split; [|split]].
  - intros H. destruct (Device.children device); [contradiction|reflexivity].
  - intros -> [->|(first & rest & -> & [->|[Hnone Hown]])]; simpl;
      [reflexivity|reflexivity|].
    destruct (String.eqb first ""); [reflexivity|]. now rewrite Hnone, Hown.
  - intros first rest -> -> Hnone Hinherited. simpl.
    destruct (String.eqb_spec first "") as [->|_]; [discriminate Hinherited|].
    now rewrite Hnone, Hinherited.
  - intros first rest parent -> -> Hfirst Hparent Hnd Hin. simpl.
    destruct (String.eqb_spec first "") as [|_]; [contradiction|].
    rewrite Hparent. eexists. split; [reflexivity|].
    rewrite Z.eqb_eq. now apply findIndex_last.
Qed.

Lemma leaf_class_marks_the_last_child_witness :
  Device.children vda1 = []
  /\ Device.parents vda1 = ["vda"]
  /\ lookup "vda" twoPartitions = Some vda
  /\ NoDup (Device.children vda)
  /\ In "vda1" (Device.children vda)
  /\ hasLeafClass twoPartitions "vda1" vda1 = Some false
  /\ exists leaf,
       hasLeafClass twoPartitions "vda1" vda1 = Some leaf
       /\ (leaf = true <-> last (Device.children vda) "" = "vda1").
Proof.
  assert (Hnd : NoDup (Device.children vda)).
  { simpl. repeat constructor; simpl; intuition discriminate. }
  assert (Hin : In "vda1" (Device.children vda)) by (simpl; tauto).
  assert (Hfirst : "vda" <> "") by discriminate.
  split; [reflexivity|]. split; [reflexivity|]. split; [reflexivity|].
  split; [exact Hnd|]. split; [exact Hin|]. split; [reflexivity|].
  exact (proj2 (proj2 (proj2
                  (leaf_class_marks_the_last_child twoPartitions "vda1" vda1)))
           "vda" [] vda eq_refl eq_refl Hfirst eq_refl Hnd Hin).
Defined.

(** A partition that names [toString] as its parent: the class cannot
    be worked out, and the table is not built. *)
Example row_of_prototype_parent_throws :
  hasLeafClass strayPartition "sdc1" sdc1 = None
  /\ getRows 2 strayPartition ["sdc1"] = None.
Proof. split; reflexivity. Qed.
